(** * aissamchecker: page watcher and Telegram bot

    A shallow embedding of [aissamchecker.py]: the text normaliser
    [_normalize_arabic], the page matcher [page_contains_text], the
    notification decision [handle_result], the command handling and the
    due-check sweep of the bot loop in [main].

    Python [str] values are lists of Unicode code points.  The parts of the
    Python runtime the program calls (the [unicodedata] tables, [float],
    [requests], the clock) are interfaces here; a small concrete
    implementation of each follows the program, to evaluate it on concrete
    inputs.  The definitions come first, the properties after them. *)

From Stdlib Require Import NArith ZArith QArith Lia.
From Stdlib Require Import Strings.String Strings.Ascii.
From Stdlib Require Import Qround DecimalString.
From stdpp Require Import gmap list.

Local Open Scope N_scope.

(** ** Python strings *)

Module PyStr.

(** A [str] is a sequence of code points. *)
Definition pystr : Type := list N.

(** An ASCII literal of the source, as a [str]. *)
Definition lit (s : string) : pystr :=
  List.map N_of_ascii (list_ascii_of_string s).

Definition str_eqb (a b : pystr) : bool := bool_decide (a = b).

(** Truthiness of a [str]: the empty string is falsy. *)
Definition truthy (s : pystr) : bool :=
  match s with [] => false | _ :: _ => true end.

(** Truthiness of an [Optional[str]]: [None] and [""] are falsy. *)
Definition truthy_opt (o : option pystr) : bool :=
  match o with None => false | Some s => truthy s end.

(** [str.isspace] on one code point: the code points CPython treats as
    whitespace in [str.split()] and [str.strip()]. *)
Definition isspace (c : N) : bool :=
  ((0x09 <=? c) && (c <=? 0x0D)) || ((0x1C <=? c) && (c <=? 0x20))
  || (c =? 0x85) || (c =? 0xA0) || (c =? 0x1680)
  || ((0x2000 <=? c) && (c <=? 0x200A))
  || (c =? 0x2028) || (c =? 0x2029) || (c =? 0x202F) || (c =? 0x205F)
  || (c =? 0x3000).

(** [s.startswith(p)] *)
Fixpoint startswith (p s : pystr) : bool :=
  match p, s with
  | [], _ => true
  | _ :: _, [] => false
  | a :: p', b :: s' => (a =? b) && startswith p' s'
  end.

(** [needle in hay] *)
Fixpoint str_in (needle hay : pystr) : bool :=
  startswith needle hay ||
  match hay with
  | [] => false
  | _ :: hay' => str_in needle hay'
  end.

(** [s.split()]: maximal runs of non-whitespace code points. *)
Fixpoint split (s : pystr) : list pystr :=
  match s with
  | [] => []
  | c :: s' =>
      if isspace c then split s'
      else let rest := split s' in
           match s', rest with
           | d :: _, t :: ts => if isspace d then [c] :: rest else (c :: t) :: ts
           | _, _ => [c] :: rest
           end
  end.

(** [sep.join(parts)] *)
Fixpoint join (sep : pystr) (parts : list pystr) : pystr :=
  match parts with
  | [] => []
  | [t] => t
  | t :: ts => t ++ sep ++ join sep ts
  end.

Fixpoint lstrip (s : pystr) : pystr :=
  match s with
  | [] => []
  | c :: s' => if isspace c then lstrip s' else s
  end.

(** [s.strip()] *)
Definition strip (s : pystr) : pystr := rev (lstrip (rev (lstrip s))).

(** [s.replace(old, new)] for a non-empty [old]: occurrences are taken left
    to right and do not overlap; [skip] counts the code points of the
    occurrence just replaced that are still to be passed over. *)
Fixpoint replace_from (old new : pystr) (skip : nat) (s : pystr) : pystr :=
  match s with
  | [] => []
  | c :: s' =>
      match skip with
      | S k => replace_from old new k s'
      | O => if startswith old s
             then new ++ replace_from old new (Nat.pred (length old)) s'
             else c :: replace_from old new O s'
      end
  end.

(** [s.replace(old, new)]; with an empty [old], [new] is put before every
    code point and at the end. *)
Definition replace (old new s : pystr) : pystr :=
  match old with
  | [] => new ++ flat_map (fun c => c :: new) s
  | _ :: _ => replace_from old new O s
  end.

End PyStr.
Export PyStr.

(** ** The Text Normalizer *)

(** The three [unicodedata] / [str] services [_normalize_arabic] calls. *)
Class Unicodedata : Type := {
  normalize_NFKC : pystr -> pystr;   (* unicodedata.normalize("NFKC", text) *)
  combining : N -> N;                (* unicodedata.combining(ch) *)
  str_lower : pystr -> pystr         (* text.lower() *)
}.

(** The [replacements] dictionary, in insertion order, with the code points
    of the string literals as the source file has them. *)
Definition replacements : list (pystr * pystr) :=
  [ ([0xD8; 0xA3],   [0xD8; 0xA7]);
    ([0xD8; 0xA5],   [0xD8; 0xA7]);
    ([0xD8; 0xA2],   [0xD8; 0xA7]);
    ([0xD9; 0x2030], [0xD9; 0x160]);
    ([0xD8; 0xA4],   [0xD9; 0x2C6]);
    ([0xD8; 0xA6],   [0xD9; 0x160]);
    ([0xD8; 0xA9],   [0xD9; 0x2021]);
    ([0xD9; 0x20AC], []) ].

Section Normalizer.
Context {U : Unicodedata}.

(** ["".join(ch for ch in text if not unicodedata.combining(ch))] *)
Definition strip_combining (text : pystr) : pystr :=
  List.filter (fun ch => combining ch =? 0) text.

(** [for src, dst in replacements.items(): text = text.replace(src, dst)] *)
Definition apply_replacements (table : list (pystr * pystr)) (text : pystr) : pystr :=
  fold_left (fun t sd => replace (fst sd) (snd sd) t) table text.

(** [" ".join(text.split())] *)
Definition collapse_whitespace (text : pystr) : pystr :=
  join [0x20] (split text).

Definition _normalize_arabic (text : pystr) : pystr :=
  let text := normalize_NFKC text in
  let text := strip_combining text in
  let text := apply_replacements replacements text in
  let text := collapse_whitespace text in
  str_lower text.

(** The last line of [page_contains_text], on the decoded page text. *)
Definition contains_text (page_text needle : pystr) : bool :=
  str_in (_normalize_arabic needle) (_normalize_arabic page_text).

End Normalizer.

(** ** Floats, exceptions, responses *)

(** What the program does with [float] values: source literals, parsing a
    token ([float(arg)], [None] standing for [ValueError]), [+] and [>=]. *)
Class PyFloat (F : Type) : Type := {
  float_lit : Q -> F;
  float_of_str : pystr -> option F;
  f_add : F -> F -> F;
  f_ge : F -> F -> bool
}.

Inductive exit_reason : Type :=
| TokenRequired      (* "Telegram token is required in bot mode ..." *)
| UrlRequired.       (* "Please provide at least one URL or use --bot mode." *)

(** The exceptions the modelled code tells apart: the three classes of the
    [except] clauses of the sweep ([HTTPError] and [Timeout] are subclasses
    of [RequestException]), [SystemExit], and any other exception. *)
Inductive exception : Type :=
| HTTPError
| Timeout
| RequestException
| SystemExit (why : exit_reason)
| OtherException.

(** [except (requests.HTTPError, requests.Timeout, requests.RequestException)] *)
Definition is_request_exception (e : exception) : bool :=
  match e with
  | HTTPError | Timeout | RequestException => true
  | SystemExit _ | OtherException => false
  end.

(** The fields of a [requests.Response] the program reads.  [encoding] is
    the charset the server declared, as [requests] reports it. *)
Record Response : Type := {
  status_code : N;
  encoding : option pystr;
  apparent_encoding : option pystr;
  content : list N
}.

(** [resp.raise_for_status()] *)
Definition raise_for_status (resp : Response) : option exception :=
  if (400 <=? status_code resp) && (status_code resp <? 600)
  then Some HTTPError else None.

Section Encoding.
Context {U : Unicodedata}.

(** Lines 89-93 of [page_contains_text]: the value of [resp.encoding] when
    [resp.text] is read. *)
Definition select_encoding (resp : Response) : pystr :=
  let enc := if negb (truthy_opt (encoding resp))
             then apparent_encoding resp else encoding resp in
  match enc with
  | None => lit "utf-8"
  | Some e =>
      if negb (truthy e) || str_eqb (str_lower e) (lit "iso-8859-1")
      then lit "utf-8" else e
  end.

End Encoding.

(** ** Command-line arguments *)

Record Args (F : Type) : Type := {
  args_urls : list pystr;
  args_timeout : F;
  args_find : pystr;
  args_watch : bool;
  args_interval : F;
  args_tg_token : pystr;
  args_tg_chat_id : pystr;
  args_bot : bool
}.
Arguments args_urls {F} _.
Arguments args_timeout {F} _.
Arguments args_find {F} _.
Arguments args_watch {F} _.
Arguments args_interval {F} _.
Arguments args_tg_token {F} _.
Arguments args_tg_chat_id {F} _.
Arguments args_bot {F} _.

(** The default of [--tg-token] in the source is a non-empty literal; being
    a credential, its characters are not reproduced here. *)
Definition DEFAULT_TG_TOKEN : pystr := lit "<token literal of line 155>".

(** [default=os.getenv("TELEGRAM_BOT_TOKEN", <literal>)] under [--tg-token]:
    the value of [args.tg_token] given the flag and the environment
    variable, each possibly absent. *)
Definition resolve_tg_token (flag env : option pystr) : pystr :=
  match flag with
  | Some t => t
  | None => match env with
            | Some t => t
            | None => DEFAULT_TG_TOKEN
            end
  end.

(** ** Telegram messages *)

(** The texts the bot sends, by template and the values put into it. *)
Inductive text_out (F : Type) : Type :=
| TxtBotRunning
| TxtFound (find url : pystr)
| TxtNeedUrl
| TxtStarted (urls : list pystr) (interval : F) (find : pystr)
| TxtStopped
| TxtNoActive
| TxtStatus (urls : list pystr) (interval : F) (find : pystr)
            (last : list (pystr * option bool))
| TxtNoActiveUsage
| TxtHelp.
Arguments TxtBotRunning {F}.
Arguments TxtFound {F} _ _.
Arguments TxtNeedUrl {F}.
Arguments TxtStarted {F} _ _ _.
Arguments TxtStopped {F}.
Arguments TxtNoActive {F}.
Arguments TxtStatus {F} _ _ _ _.
Arguments TxtNoActiveUsage {F}.
Arguments TxtHelp {F}.

(** One call of [_send_telegram_message(token, chat_id, text)]. *)
Record sent (F : Type) : Type := {
  sent_token : pystr;
  sent_chat : pystr;
  sent_text : text_out F
}.
Arguments sent_token {F} _.
Arguments sent_chat {F} _.
Arguments sent_text {F} _.

(** An update of [getUpdates], with the keys the loop reads.  A message
    object may lack the key ["chat"] ([msg_chat = None]), and the object
    under ["chat"] may lack the key ["id"] ([msg_chat = Some None]);
    otherwise [msg_chat] holds [str(msg["chat"]["id"])].  [msg_more] tells
    whether the object has keys other than ["chat"] and ["text"].  Where
    present, the values have the types the Bot API gives them: the text is
    a string, the chat an object, the update id an integer. *)
Record Message : Type := {
  msg_chat : option (option pystr);
  msg_text : option pystr;
  msg_more : bool
}.

Record Update : Type := {
  update_id : option Z;
  message : option Message;
  edited_message : option Message
}.

(** [bool(msg)] for a message object: a dictionary is truthy when it has
    at least one key. *)
Definition msg_truthy (m : Message) : bool :=
  match msg_chat m, msg_text m with
  | None, None => msg_more m
  | _, _ => true
  end.

(** [upd.get("message") or upd.get("edited_message")] *)
Definition message_or_edited (upd : Update) : option Message :=
  match message upd with
  | Some m => if msg_truthy m then Some m else edited_message upd
  | None => edited_message upd
  end.

(** ** Watch tasks *)

(** The dictionary stored under a chat id in [tasks]. *)
Record Task (F : Type) : Type := {
  task_urls : list pystr;
  task_interval : F;
  task_states : gmap pystr (option bool);
  task_next_at : F
}.
Arguments task_urls {F} _.
Arguments task_interval {F} _.
Arguments task_states {F} _.
Arguments task_next_at {F} _.

(** [states.get(url)]: a missing key reads as [None]. *)
Definition states_get (states : gmap pystr (option bool)) (url : pystr) : option bool :=
  match states !! url with
  | Some st => st
  | None => None
  end.

(** [{url: None for url in urls}] *)
Definition fresh_states (urls : list pystr) : gmap pystr (option bool) :=
  fold_left (fun m url => <[url := None]> m) urls ∅.

(** [tasks] keeps insertion order, which the due-check loop follows. *)
Section Dict.
Context {V : Type}.

Fixpoint dict_get (d : list (pystr * V)) (k : pystr) : option V :=
  match d with
  | [] => None
  | (k', v) :: d' => if str_eqb k' k then Some v else dict_get d' k
  end.

(** [d[k] = v]: an existing key keeps its place. *)
Fixpoint dict_set (d : list (pystr * V)) (k : pystr) (v : V) : list (pystr * V) :=
  match d with
  | [] => [(k, v)]
  | (k', v') :: d' =>
      if str_eqb k' k then (k', v) :: d' else (k', v') :: dict_set d' k v
  end.

(** [d.pop(k, None)] *)
Fixpoint dict_pop (d : list (pystr * V)) (k : pystr) : list (pystr * V) :=
  match d with
  | [] => []
  | (k', v') :: d' =>
      if str_eqb k' k then d' else (k', v') :: dict_pop d' k
  end.

End Dict.

(** ** The bot: effects *)

(** The program runs against a world it reaches through [requests]
    ([requests_get], [telegram_get_updates]), codecs ([codec_decode]) and
    the clock ([time_time], [time_sleep]).  Messages handed to
    [_send_telegram_message] and the lines [handle_result] prints are
    logged.  A computation returns a value or raises, and keeps the
    effects made before raising. *)

Section Program.
Context {U : Unicodedata} {F : Type} {PF : PyFloat F}.
Variable World : Type.
Variable requests_get : pystr -> F -> World -> (exception + Response) * World.
Variable codec_decode : pystr -> list N -> pystr.
Variable time_time : World -> F.
Variable time_sleep : F -> World -> World.
Variable telegram_get_updates : pystr -> option Z -> World -> list Update * World.
Variable args : Args F.

Record Sys : Type := {
  world : World;
  outbox : list (sent F);
  console : list (pystr * bool)
}.

Inductive Result (A : Type) : Type :=
| Ok (a : A) (s : Sys)
| Raise (e : exception) (s : Sys).
Arguments Ok {A} _ _.
Arguments Raise {A} _ _.

Definition M (A : Type) : Type := Sys -> Result A.

Definition ret {A : Type} (a : A) : M A := fun s => Ok a s.

Definition bind {A B : Type} (m : M A) (k : A -> M B) : M B :=
  fun s => match m s with
           | Ok a s' => k a s'
           | Raise e s' => Raise e s'
           end.

Definition raise {A : Type} (e : exception) : M A := fun s => Raise e s.

Local Notation "x <- m ;; k" := (bind m (fun x => k))
  (at level 62, m at next level, right associativity).
Local Notation "m ;;; k" := (bind m (fun _ => k))
  (at level 62, right associativity).

(** [try: body except (HTTPError, Timeout, RequestException): handler] *)
Definition try_except_requests {A : Type} (body handler : M A) : M A :=
  fun s => match body s with
           | Ok a s' => Ok a s'
           | Raise e s' => if is_request_exception e then handler s' else Raise e s'
           end.

(** [try: body except Exception: pass] *)
Definition try_except_pass (body : M unit) : M unit :=
  fun s => match body s with
           | Ok a s' => Ok a s'
           | Raise (SystemExit why) s' => Raise (SystemExit why) s'
           | Raise _ s' => Ok tt s'
           end.

Definition do_requests_get (url : pystr) (timeout_seconds : F) : M Response :=
  fun s => match requests_get url timeout_seconds (world s) with
           | (inl e, w) => Raise e {| world := w; outbox := outbox s; console := console s |}
           | (inr resp, w) => Ok resp {| world := w; outbox := outbox s; console := console s |}
           end.

(** [_send_telegram_message]: does not raise. *)
Definition _send_telegram_message (token chat_id : pystr) (text : text_out F) : M unit :=
  fun s => Ok tt {| world := world s;
                    outbox := outbox s ++ [{| sent_token := token; sent_chat := chat_id; sent_text := text |}];
                    console := console s |}.

(** [_get_telegram_updates]: does not raise. *)
Definition _get_telegram_updates (token : pystr) (offset : option Z) : M (list Update) :=
  fun s => let '(upds, w) := telegram_get_updates token offset (world s) in
           Ok upds {| world := w; outbox := outbox s; console := console s |}.

(** [print(f"{url}: {status}")] *)
Definition print_status (url : pystr) (exists_ : bool) : M unit :=
  fun s => Ok tt {| world := world s; outbox := outbox s;
                    console := console s ++ [(url, exists_)] |}.

Definition now_ : M F := fun s => Ok (time_time (world s)) s.

Definition sleep (seconds : F) : M unit :=
  fun s => Ok tt {| world := time_sleep seconds (world s);
                    outbox := outbox s; console := console s |}.

(** ** The Page Matcher *)

Definition page_contains_text (url needle : pystr) (timeout_seconds : F) : M bool :=
  resp <- do_requests_get url timeout_seconds ;;
  match raise_for_status resp with
  | Some e => raise e
  | None =>
      let page_text := codec_decode (select_encoding resp) (content resp) in
      ret (contains_text page_text needle)
  end.

(** ** The notification decision *)

(** [prev_state is not True] *)
Definition is_not_True (prev_state : option bool) : bool :=
  match prev_state with
  | Some true => false
  | _ => true
  end.

Definition should_notify (exists_ : bool) (prev_state : option bool) : bool :=
  exists_ && is_not_True prev_state.

Definition handle_result (url : pystr) (exists_ : bool) (prev_state : option bool)
    (notify_token notify_chat : option pystr) : M bool :=
  print_status url exists_ ;;;
  try_except_pass
    (if should_notify exists_ prev_state && truthy_opt notify_token && truthy_opt notify_chat
     then _send_telegram_message (default [] notify_token) (default [] notify_chat)
            (TxtFound (args_find args) url)
     else ret tt) ;;;
  ret exists_.

(** ** The sweep of one task and the due checks *)

(** The body of [for url in task.get("urls", [])] for one [url]. *)
Definition check_url (chat_id url : pystr) (states : gmap pystr (option bool))
    : M (gmap pystr (option bool)) :=
  try_except_requests
    (exists_ <- page_contains_text url (args_find args) (args_timeout args) ;;
     st <- handle_result url exists_ (states_get states url)
             (Some (args_tg_token args)) (Some chat_id) ;;
     ret (<[url := Some st]> states))
    (st <- handle_result url false (states_get states url)
             (Some (args_tg_token args)) (Some chat_id) ;;
     ret (<[url := Some st]> states)).

Fixpoint sweep (chat_id : pystr) (urls : list pystr) (states : gmap pystr (option bool))
    : M (gmap pystr (option bool)) :=
  match urls with
  | [] => ret states
  | url :: rest =>
      states' <- check_url chat_id url states ;;
      sweep chat_id rest states'
  end.

(** The body of [for chat_id, task in list(tasks.items())] for one task. *)
Definition check_task (now : F) (chat_id : pystr) (task : Task F) : M (Task F) :=
  if f_ge now (task_next_at task) then
    states' <- sweep chat_id (task_urls task) (task_states task) ;;
    ret {| task_urls := task_urls task;
           task_interval := task_interval task;
           task_states := states';
           task_next_at := f_add now (task_interval task) |}
  else ret task.

Fixpoint check_tasks (now : F) (tasks : list (pystr * Task F)) : M (list (pystr * Task F)) :=
  match tasks with
  | [] => ret []
  | (chat_id, task) :: rest =>
      task' <- check_task now chat_id task ;;
      rest' <- check_tasks now rest ;;
      ret ((chat_id, task') :: rest')
  end.

(** Step 2 of the loop: [now = time.time()], then the due checks. *)
Definition run_due_checks (tasks : list (pystr * Task F)) : M (list (pystr * Task F)) :=
  now <- now_ ;;
  check_tasks now tasks.

(** ** The Command Interpreter *)

Definition parse_command (text : pystr) : pystr * list pystr :=
  match split (strip text) with
  | [] => ([], [])
  | cmd :: args_list => (str_lower cmd, args_list)
  end.

(** [arg.startswith('http://') or arg.startswith('https://')] *)
Definition is_url (arg : pystr) : bool :=
  startswith (lit "http://") arg || startswith (lit "https://") arg.

(** One turn of [for i, arg in enumerate(cmd_args)], on [(urls, interval)]. *)
Definition scan_arg (acc : list pystr * F) (arg : pystr) : list pystr * F :=
  let '(urls, interval) := acc in
  if is_url arg then (urls ++ [arg], interval)
  else match float_of_str arg with
       | Some potential_interval =>
           if f_ge potential_interval (float_lit 1) then (urls, potential_interval)
           else (urls, interval)
       | None => (urls, interval)
       end.

(** The [urls] and [interval] a [/watch] command gives. *)
Definition scan_watch_args (cmd_args : list pystr) : list pystr * F :=
  fold_left scan_arg cmd_args ([], args_interval args).

(** The task stored by [/watch]. *)
Definition new_task (urls : list pystr) (interval : F) : Task F :=
  {| task_urls := urls;
     task_interval := interval;
     task_states := fresh_states urls;
     task_next_at := float_lit 0 |}.

Definition is_cmd (cmd : pystr) (a b : string) : bool :=
  str_eqb cmd (lit a) || str_eqb cmd (lit b).

(** The [if cmd in ... elif ...] chain for one message of [chat_id]. *)
Definition handle_command (token chat_id text : pystr) (tasks : list (pystr * Task F))
    : M (list (pystr * Task F)) :=
  let '(cmd, cmd_args) := parse_command text in
  if is_cmd cmd "/watch" "watch" && (1 <=? length cmd_args)%nat then
    let '(urls, interval) := scan_watch_args cmd_args in
    match urls with
    | [] => _send_telegram_message token chat_id TxtNeedUrl ;;; ret tasks
    | _ :: _ =>
        _send_telegram_message token chat_id (TxtStarted urls interval (args_find args)) ;;;
        ret (dict_set tasks chat_id (new_task urls interval))
    end
  else if is_cmd cmd "/stop" "stop" then
    match dict_get tasks chat_id with
    | Some _ => _send_telegram_message token chat_id TxtStopped ;;; ret (dict_pop tasks chat_id)
    | None => _send_telegram_message token chat_id TxtNoActive ;;; ret tasks
    end
  else if is_cmd cmd "/status" "status" then
    match dict_get tasks chat_id with
    | Some t =>
        _send_telegram_message token chat_id
          (TxtStatus (task_urls t) (task_interval t) (args_find args)
             (List.map (fun url => (url, states_get (task_states t) url)) (task_urls t))) ;;;
        ret tasks
    | None => _send_telegram_message token chat_id TxtNoActiveUsage ;;; ret tasks
    end
  else if is_cmd cmd "/help" "help" || is_cmd cmd "/start" "start" then
    _send_telegram_message token chat_id TxtHelp ;;; ret tasks
  else ret tasks.

(** ** The loop *)

Record BotState : Type := {
  tasks : list (pystr * Task F);
  next_offset : option Z
}.

(** [str(msg["chat"]["id"]) if "chat" in msg else None]: the subscript
    ["id"] raises [KeyError] on a chat object without that key. *)
Definition read_chat_id (m : Message) : M (option pystr) :=
  match msg_chat m with
  | None => ret None
  | Some None => raise OtherException
  | Some (Some chat_id) => ret (Some chat_id)
  end.

(** The body of [for upd in updates]. *)
Definition process_update (token : pystr) (st : BotState) (upd : Update) : M BotState :=
  let offset := Some (Z.max (default 0%Z (next_offset st)) (default 0%Z (update_id upd) + 1)) in
  let skip := ret {| tasks := tasks st; next_offset := offset |} in
  match message_or_edited upd with
  | None => skip
  | Some m =>
      if negb (msg_truthy m) then skip
      else
        chat_id <- read_chat_id m ;;
        let text := default [] (msg_text m) in
        if negb (truthy_opt chat_id) || negb (truthy text) then skip
        else
          tasks' <- handle_command token (default [] chat_id) text (tasks st) ;;
          ret {| tasks := tasks'; next_offset := offset |}
  end.

Fixpoint process_updates (token : pystr) (st : BotState) (updates : list Update) : M BotState :=
  match updates with
  | [] => ret st
  | upd :: rest =>
      st' <- process_update token st upd ;;
      process_updates token st' rest
  end.

(** Bot mode before the loop: the token check and the greeting. *)
Definition bot_start : M BotState :=
  let token := args_tg_token args in
  if negb (truthy token) then raise (SystemExit TokenRequired)
  else
    _send_telegram_message token (args_tg_chat_id args) TxtBotRunning ;;;
    ret {| tasks := []; next_offset := None |}.

(** One turn of [while True]. *)
Definition bot_iteration (st : BotState) : M BotState :=
  let token := args_tg_token args in
  updates <- _get_telegram_updates token (next_offset st) ;;
  st' <- process_updates token st updates ;;
  tasks' <- run_due_checks (tasks st') ;;
  sleep (float_lit 0.2) ;;;
  ret {| tasks := tasks'; next_offset := next_offset st' |}.

End Program.

Arguments Ok {F World A} _ _.
Arguments Raise {F World A} _ _.
Arguments world {F World} _.
Arguments outbox {F World} _.
Arguments console {F World} _.
Arguments tasks {F} _.
Arguments next_offset {F} _.

(** ** A concrete runtime *)

(** Rows of the Unicode Character Database for the code points of the texts
    evaluated in this development, and NFKC computed from them: full
    decomposition, canonical ordering, canonical composition.  ASCII and
    the Arabic letters U+0621..U+064A have no row other than the lower-case
    mapping of A..Z: they do not decompose, are not combining marks, and
    compose with nothing in these texts. *)
Module UnicodeRows.

(** Canonical combining class. *)
Definition ccc (c : N) : N :=
  if (c =? 0x307) || (c =? 0x308) then 230 else 0.

(** Full compatibility decomposition of one code point. *)
Definition decomposition (c : N) : pystr :=
  if c =? 0xA0 then [0x20]
  else if c =? 0xD6 then [0x4F; 0x308]
  else if c =? 0xF6 then [0x6F; 0x308]
  else if c =? 0x130 then [0x49; 0x307]
  else if c =? 0x9CB then [0x9C7; 0x9BE]
  else [c].

(** Primary composite of a starter and a following code point. *)
Definition primary_composite (s c : N) : option N :=
  if c =? 0x308 then
    if s =? 0x4F then Some 0xD6 else if s =? 0x6F then Some 0xF6 else None
  else if c =? 0x307 then
    if s =? 0x49 then Some 0x130 else None
  else if c =? 0x9BE then
    if s =? 0x9C7 then Some 0x9CB else None
  else None.

(** Canonical ordering: a mark moves behind the marks of smaller non-zero
    class that follow it. *)
Fixpoint insert_mark (c : N) (l : pystr) : pystr :=
  match l with
  | [] => [c]
  | d :: l' =>
      if (0 <? ccc d) && (ccc d <? ccc c) then d :: insert_mark c l' else c :: l
  end.

Definition canonical_order (s : pystr) : pystr := foldr insert_mark [] s.

(** Canonical composition after the starter [s]: [pending] holds, last
    first, the marks kept since [s], and [last] the class of the latest. *)
Fixpoint compose_from (s : N) (pending : pystr) (last : N) (l : pystr) : pystr :=
  match l with
  | [] => s :: rev pending
  | c :: l' =>
      let blocked := truthy pending && (ccc c <=? last) in
      match (if blocked then None else primary_composite s c) with
      | Some sc => compose_from sc pending last l'
      | None =>
          if ccc c =? 0 then s :: rev pending ++ compose_from c [] 0 l'
          else compose_from s (c :: pending) (ccc c) l'
      end
  end.

Fixpoint compose (l : pystr) : pystr :=
  match l with
  | [] => []
  | c :: l' => if ccc c =? 0 then compose_from c [] 0 l' else c :: compose l'
  end.

Definition nfkc (s : pystr) : pystr :=
  compose (canonical_order (flat_map decomposition s)).

(** Lower-case mapping of one code point. *)
Definition lower_char (c : N) : pystr :=
  if (0x41 <=? c) && (c <=? 0x5A) then [c + 32]
  else if c =? 0xD6 then [0xF6]
  else if c =? 0xD8 then [0xF8]
  else if c =? 0xD9 then [0xF9]
  else if c =? 0x160 then [0x161]
  else if c =? 0x130 then [0x69; 0x307]
  else [c].

Definition lower (s : pystr) : pystr := flat_map lower_char s.

End UnicodeRows.

Definition ucd_rows : Unicodedata :=
  {| normalize_NFKC := UnicodeRows.nfkc;
     combining := UnicodeRows.ccc;
     str_lower := UnicodeRows.lower |}.

(** Floats as exact rationals; [float] on plain decimal tokens
    (digits with an optional fraction). *)
Module DecimalFloat.

Fixpoint digits_value (acc : N) (s : pystr) : option N :=
  match s with
  | [] => Some acc
  | c :: s' =>
      if (0x30 <=? c) && (c <=? 0x39) then digits_value (10 * acc + (c - 0x30)) s'
      else None
  end.

(** The token before and after its first ["."]. *)
Fixpoint break_at_dot (s : pystr) : pystr * option pystr :=
  match s with
  | [] => ([], None)
  | c :: s' =>
      if c =? 0x2E then ([], Some s')
      else let '(a, b) := break_at_dot s' in (c :: a, b)
  end.

Definition float_of_decimal (s : pystr) : option Q :=
  let '(ip, fp) := break_at_dot s in
  let fp := default [] fp in
  if negb (truthy ip) && negb (truthy fp) then None
  else match digits_value 0 ip, digits_value 0 fp with
       | Some i, Some f =>
           let scale := Pos.pow 10 (Pos.of_succ_nat (length fp)) in
           Some (Qred (Z.of_N (i * N.pos scale + 10 * f) # scale))
       | _, _ => None
       end.

End DecimalFloat.

Definition Q_float : PyFloat Q :=
  {| float_lit := fun q => q;
     float_of_str := DecimalFloat.float_of_decimal;
     f_add := fun a b => Qred (a + b);
     f_ge := fun a b => Qle_bool b a |}.

(** A scripted world: a clock, and the outcomes of the coming fetches, each
    with the time the fetch takes: a response, or no response in time;
    fetches past the script fail to connect.  The body of a response is its
    text, one code point per item. *)
Module Sim.

Record World : Type := {
  clock : Q;
  script : list (Q * option Response);
  inbox : list (list Update)
}.

Definition requests_get (url : pystr) (timeout_seconds : Q) (w : World)
    : (exception + Response) * World :=
  match script w with
  | [] => (inl RequestException, w)
  | (latency, r) :: rest =>
      (match r with Some resp => inr resp | None => inl Timeout end,
       {| clock := Qred (clock w + latency); script := rest; inbox := inbox w |})
  end.

Definition codec_decode (enc : pystr) (body : list N) : pystr := body.

Definition time_time (w : World) : Q := clock w.

Definition time_sleep (seconds : Q) (w : World) : World :=
  {| clock := Qred (clock w + seconds); script := script w; inbox := inbox w |}.

Definition telegram_get_updates (token : pystr) (offset : option Z) (w : World)
    : list Update * World :=
  match inbox w with
  | [] => ([], w)
  | upds :: rest => (upds, {| clock := clock w; script := script w; inbox := rest |})
  end.

(** A page served with status 200 and a declared charset. *)
Definition page (text : string) : option Response :=
  Some {| status_code := 200; encoding := Some (lit "utf-8");
          apparent_encoding := Some (lit "ascii"); content := lit text |}.

(** [--bot --find "register now"], with [args.tg_token] as given. *)
Definition args_with_token (token : pystr) : Args Q :=
  {| args_urls := []; args_timeout := 15%Q; args_find := lit "register now";
     args_watch := false; args_interval := 5%Q;
     args_tg_token := token; args_tg_chat_id := lit "42";
     args_bot := true |}.

Definition args : Args Q := args_with_token (lit "TOKEN").

Definition start (t : Q) (fetches : list (Q * option Response))
    : Sys (F := Q) World :=
  {| world := {| clock := t; script := fetches; inbox := [] |};
     outbox := []; console := [] |}.

End Sim.

(** ** Vocabulary of the statements *)

(** [needle] occurs in [hay] as a contiguous run. *)
Definition substring (needle hay : pystr) : Prop :=
  exists pre post : pystr, hay = pre ++ needle ++ post.

(** ASCII and the Arabic letters U+0621..U+064A. *)
Definition plain (c : N) : bool :=
  (c <? 0x80) || ((0x621 <=? c) && (c <=? 0x64A)).

(** Lower case within [plain]: A..Z go to a..z, nothing else moves. *)
Definition plain_lower (c : N) : N :=
  if (0x41 <=? c) && (c <=? 0x5A) then c + 32 else c.

(** What the Unicode standard says of [plain] text: NFKC leaves it as it
    is, none of its code points is a combining mark, and lower-casing maps
    it code point by code point. *)
Definition agrees_on_plain (U : Unicodedata) : Prop :=
  (forall x, forallb plain x = true -> normalize_NFKC x = x) /\
  (forall c, plain c = true -> combining c = 0) /\
  (forall x, forallb plain x = true -> str_lower x = List.map plain_lower x).

(** The decoding rule in the words of the specification: the declared
    encoding, unless it is absent or the known-bad default ISO-8859-1, then
    the detected encoding, unless detection gives nothing, then UTF-8. *)
Definition spec_select_encoding {U : Unicodedata} (resp : Response) : pystr :=
  let bad := match encoding resp with
             | None => true
             | Some e => negb (truthy e) || str_eqb (str_lower e) (lit "iso-8859-1")
             end in
  if bad then
    if truthy_opt (apparent_encoding resp)
    then default [] (apparent_encoding resp) else lit "utf-8"
  else default [] (encoding resp).

(** The interval tokens of a [/watch] command: the tokens that are not URLs
    and parse as a number at least 1.0, in order. *)
Definition valid_intervals {F : Type} {PF : PyFloat F} (cmd_args : list pystr) : list F :=
  omap (fun arg =>
          if is_url arg then None
          else match float_of_str arg with
               | Some p => if f_ge p (float_lit 1) then Some p else None
               | None => None
               end) cmd_args.

(** The "found" notification for [url] sent to [chat_id]. *)
Definition found_msg {F : Type} (args : Args F) (chat_id url : pystr) : sent F :=
  {| sent_token := args_tg_token args; sent_chat := chat_id;
     sent_text := TxtFound (args_find args) url |}.

Definition is_found_for {F : Type} (url : pystr) (m : sent F) : bool :=
  match sent_text m with
  | TxtFound _ u => str_eqb u url
  | _ => false
  end.

(** Number of "found" notifications for [url] in a log of sent messages. *)
Definition count_found {F : Type} (url : pystr) (log : list (sent F)) : nat :=
  length (List.filter (is_found_for url) log).

(** The state of the system once [text] has been sent to [chat_id]. *)
Definition after_send {F World : Type} (token chat_id : pystr) (text : text_out F)
    (s : Sys World) : Sys World :=
  {| world := world s;
     outbox := outbox s ++ [{| sent_token := token; sent_chat := chat_id; sent_text := text |}];
     console := console s |}.

(** The state of the system after [handle_result] has run on [s]. *)
Definition after_check {F World : Type} (args : Args F) (chat_id url : pystr)
    (exists_ : bool) (prev_state : option bool) (s : Sys World) : Sys World :=
  {| world := world s;
     outbox := outbox s ++
       (if should_notify exists_ prev_state
           && truthy (args_tg_token args) && truthy chat_id
        then [found_msg args chat_id url] else []);
     console := console s ++ [(url, exists_)] |}.

Definition result_sys {F World A : Type} (r : Result (F := F) World A) : Sys World :=
  match r with
  | Ok _ s => s
  | Raise _ s => s
  end.

(** A token of [split]: non-empty, without whitespace. *)
Definition token (t : pystr) : Prop :=
  t <> [] /\ Forall (fun c => isspace c = false) t.

(** What [str.lower] does on every string: lower-casing twice is
    lower-casing once; the empty string stays empty; a space is kept and
    splits the text into parts that are lower-cased on their own (it is
    neither cased nor case-ignorable, so the rule for a final sigma does not
    look across it); lower-casing a token gives a token; and the result
    holds neither U+00D8 nor U+00D9, which are upper-case letters. *)
Definition lower_case_laws (U : Unicodedata) : Prop :=
  (forall x, str_lower (str_lower x) = str_lower x) /\
  str_lower [] = [] /\
  (forall a b, str_lower (a ++ 0x20 :: b) = str_lower a ++ 0x20 :: str_lower b) /\
  (forall t, token t -> token (str_lower t)) /\
  (forall x, Forall (fun c => c <> 0xD8 /\ c <> 0xD9) (str_lower x)).

(** ASCII. *)
Definition ascii_only (c : N) : bool := c <? 0x80.

(** The message the loop reads from [upd] has no chat object without an
    id. *)
Definition chat_has_id (upd : Update) : Prop :=
  match message_or_edited upd with
  | Some m => msg_chat m <> Some None
  | None => True
  end.

(** How the due check of a tick at [now] leaves a task: due, it is
    scheduled again at [now] plus its interval; not due, it is untouched. *)
Definition rescheduled {F : Type} {PF : PyFloat F} (now : F) (old new : pystr * Task F) : Prop :=
  fst new = fst old /\
  task_urls (snd new) = task_urls (snd old) /\
  task_interval (snd new) = task_interval (snd old) /\
  if f_ge now (task_next_at (snd old))
  then task_next_at (snd new) = f_add now (task_interval (snd old))
  else snd new = snd old.

(** The fetches of the world raise nothing but [requests] exceptions. *)
Definition only_request_exceptions {F World : Type}
    (requests_get : pystr -> F -> World -> (exception + Response) * World) : Prop :=
  forall url t w e, fst (requests_get url t w) = inl e -> is_request_exception e = true.

(** ** The size utilities *)

(** [format_size].  [float(num_bytes)] and the divisions by 1024 are exact
    for a byte count below 2^53 in absolute value, so the size is carried
    as an exact rational; [f"{size:.2f}"] rounds it to hundredths, ties to
    even. *)
Module FormatSize.

Definition units : list string := ["B"; "KB"; "MB"; "GB"; "TB"]%string.

(** The [while] loop; [left] is [len(units) - 1 - unit_index]. *)
Fixpoint scale_loop (left : nat) (size : Q) (unit_index : nat) : Q * nat :=
  match left with
  | O => (size, unit_index)
  | S left' =>
      if Qle_bool 1024 size
      then scale_loop left' (size / 1024) (S unit_index)
      else (size, unit_index)
  end.

(** [size] and [unit_index] when the loop ends. *)
Definition scaled (num_bytes : Z) : Q * nat :=
  scale_loop (length units - 1) (inject_Z num_bytes) 0.

(** The nearest integer, ties to the even one. *)
Definition round_half_even (q : Q) : Z :=
  let fl := Qfloor q in
  match Qcompare (q - inject_Z fl) (1 # 2) with
  | Lt => fl
  | Gt => (fl + 1)%Z
  | Eq => if Z.even fl then fl else (fl + 1)%Z
  end.

(** The decimal digits of a natural number. *)
Definition decimal (n : N) : pystr :=
  lit (NilEmpty.string_of_uint (N.to_uint n)).

Definition two_digits (n : N) : pystr :=
  [0x30 + n / 10; 0x30 + n mod 10].

(** [f"{size:.2f}"], for a size that is not between -0.005 and 0. *)
Definition format_2f (size : Q) : pystr :=
  let h := round_half_even (size * 100) in
  let a := Z.to_N (Z.abs h) in
  (if (h <? 0)%Z then lit "-" else []) ++ decimal (a / 100) ++ lit "." ++ two_digits (a mod 100).

Definition format_size (num_bytes : Z) : pystr :=
  let '(size, unit_index) := scaled num_bytes in
  format_2f size ++ lit " " ++ lit (nth unit_index units ""%string).

End FormatSize.

(** The reading of digits [get_page_size_bytes] relies on: [s.isdigit()],
    and [int(s)] with [None] standing for [ValueError]. *)
Class PyInt : Type := {
  str_isdigit : pystr -> bool;
  int_of_str : pystr -> option Z
}.

(** The answer to a HEAD request: its status and, when the header is
    there, the value of [Content-Length]. *)
Record HeadResponse : Type := {
  head_status_code : N;
  head_content_length : option pystr
}.

(** ** The command-line modes *)

(** The arithmetic of the watch loop on [float] values: [-] and [> 0]. *)
Class PyFloatSub (F : Type) : Type := {
  f_sub : F -> F -> F;
  f_positive : F -> bool
}.

Section CommandLine.
Context {U : Unicodedata} {F : Type} {PF : PyFloat F} {PS : PyFloatSub F} {PI : PyInt}.
Variable World : Type.
Variable requests_get : pystr -> F -> World -> (exception + Response) * World.
Variable requests_head : pystr -> F -> World -> (exception + HeadResponse) * World.
Variable codec_decode : pystr -> list N -> pystr.
Variable time_time : World -> F.
Variable time_sleep : F -> World -> World.
Variable args : Args F.

Local Notation "x <- m ;; k" := (bind World m (fun x => k))
  (at level 62, m at next level, right associativity).
Local Notation "m ;;; k" := (bind World m (fun _ => k))
  (at level 62, right associativity).

Definition do_requests_head (url : pystr) (timeout_seconds : F) : M (F := F) World HeadResponse :=
  fun s => match requests_head url timeout_seconds (world s) with
           | (inl e, w) => Raise e {| world := w; outbox := outbox s; console := console s |}
           | (inr resp, w) => Ok resp {| world := w; outbox := outbox s; console := console s |}
           end.

(** Step 1 of [get_page_size_bytes]: the size the HEAD request gives, or
    [None] when the function goes on to the GET request. *)
Definition size_from_head (url : pystr) (timeout_seconds : F) : M (F := F) World (option Z) :=
  try_except_requests World
    (head_resp <- do_requests_head url timeout_seconds ;;
     if (400 <=? head_status_code head_resp) && (head_status_code head_resp <? 600)
     then raise World HTTPError
     else match head_content_length head_resp with
          | Some content_length =>
              if str_isdigit content_length
              then match int_of_str content_length with
                   | Some n => ret World (Some n)
                   | None => raise World OtherException
                   end
              else ret World None
          | None => ret World None
          end)
    (ret World None).

(** Step 2 of [get_page_size_bytes]: the length of the body of a GET. *)
Definition size_from_get (url : pystr) (timeout_seconds : F) : M (F := F) World Z :=
  get_resp <- do_requests_get World requests_get url timeout_seconds ;;
  match raise_for_status get_resp with
  | Some e => raise World e
  | None => ret World (Z.of_nat (length (content get_resp)))
  end.

Definition get_page_size_bytes (url : pystr) (timeout_seconds : F) : M (F := F) World Z :=
  r <- size_from_head url timeout_seconds ;;
  match r with
  | Some n => ret World n
  | None => size_from_get url timeout_seconds
  end.

(** The [for url in args.urls] loop of both command-line modes, with its
    [break]: the first URL found to hold the text, if any.  Each check has
    [prev_state=None] and notifies [args.tg_chat_id]. *)
Fixpoint cli_scan (urls : list pystr) : M (F := F) World (option pystr) :=
  match urls with
  | [] => ret World None
  | url :: rest =>
      exists_ <- try_except_requests World
        (exists_ <- page_contains_text World requests_get codec_decode url
                      (args_find args) (args_timeout args) ;;
         handle_result World args url exists_ None
           (Some (args_tg_token args)) (Some (args_tg_chat_id args)) ;;;
         ret World exists_)
        (handle_result World args url false None
           (Some (args_tg_token args)) (Some (args_tg_chat_id args)) ;;;
         ret World false) ;;
      if exists_ then ret World (Some url) else cli_scan rest
  end.

(** The [while True] loop of [--watch], cut after [cycles] turns: the URL
    found, or [None] when the loop has not ended yet.  An interrupt from
    the keyboard is not among the events of the model. *)
Fixpoint cli_watch (cycles : nat) : M (F := F) World (option pystr) :=
  match cycles with
  | O => ret World None
  | S cycles' =>
      start <- now_ World time_time ;;
      found <- cli_scan (args_urls args) ;;
      match found with
      | Some url => ret World (Some url)
      | None =>
          finish <- now_ World time_time ;;
          let elapsed := f_sub finish start in
          let remainder := f_sub (args_interval args) elapsed in
          (if f_positive remainder then sleep World time_sleep remainder else ret World tt) ;;;
          cli_watch cycles'
      end
  end.

(** [main] without [--bot]. *)
Definition main_cli (cycles : nat) : M (F := F) World (option pystr) :=
  match args_urls args with
  | [] => raise World (SystemExit UrlRequired)
  | _ :: _ =>
      if args_watch args then cli_watch cycles else cli_scan (args_urls args)
  end.

End CommandLine.

(** Digits as the headers of a response have them: [isdigit] holds for a
    non-empty string of the digits 0..9 and the superscripts U+00B2,
    U+00B3, U+00B9 of Latin-1, and [int] reads the strings of 0..9. *)
Module LatinDigits.

Definition is_ascii_digit (c : N) : bool := (0x30 <=? c) && (c <=? 0x39).

Definition is_digit (c : N) : bool :=
  is_ascii_digit c || (c =? 0xB2) || (c =? 0xB3) || (c =? 0xB9).

Definition isdigit (s : pystr) : bool := truthy s && forallb is_digit s.

Definition int (s : pystr) : option Z :=
  if truthy s && forallb is_ascii_digit s
  then option_map Z.of_N (DecimalFloat.digits_value 0 s)
  else None.

End LatinDigits.

Definition latin_digits : PyInt :=
  {| str_isdigit := LatinDigits.isdigit; int_of_str := LatinDigits.int |}.

Definition Q_float_sub : PyFloatSub Q :=
  {| f_sub := fun a b => Qred (a - b);
     f_positive := fun a => negb (Qle_bool a 0) |}.

(** The scripted world answers HEAD requests from a second script. *)
Module SimHead.

Record World : Type := {
  base : Sim.World;
  heads : list (option HeadResponse)
}.

Definition requests_get (url : pystr) (timeout_seconds : Q) (w : World)
    : (exception + Response) * World :=
  let '(r, b) := Sim.requests_get url timeout_seconds (base w) in
  (r, {| base := b; heads := heads w |}).

Definition requests_head (url : pystr) (timeout_seconds : Q) (w : World)
    : (exception + HeadResponse) * World :=
  match heads w with
  | [] => (inl RequestException, w)
  | r :: rest =>
      (match r with Some resp => inr resp | None => inl Timeout end,
       {| base := base w; heads := rest |})
  end.

Definition start (head_script : list (option HeadResponse))
    (get_script : list (Q * option Response)) : Sys (F := Q) World :=
  {| world := {| base := world (Sim.start 0 get_script); heads := head_script |};
     outbox := []; console := [] |}.

End SimHead.

(** ** Vocabulary of the further statements *)

(** Every entry of a log of checks is a miss. *)
Definition all_missed (l : list (pystr * bool)) : Prop :=
  Forall (fun e => snd e = false) l.

(** What the bot keeps true of a task: it has a URL, and its states have
    the URLs as keys. *)
Definition task_ok {F : Type} (t : Task F) : Prop :=
  task_urls t <> [] /\ dom (task_states t) = (list_to_set (task_urls t) : gset pystr).

(** What the bot keeps true of its table: no chat id twice, no empty chat
    id, every task well formed. *)
Definition table_ok {F : Type} (tasks : list (pystr * Task F)) : Prop :=
  NoDup (List.map fst tasks) /\
  Forall (fun ct => truthy (fst ct) = true /\ task_ok (snd ct)) tasks.

(** The HEAD request settles the size: it succeeds, without an error
    status, and carries a [Content-Length] that [isdigit] accepts. *)
Definition head_settles {F World : Type} {PI : PyInt}
    (requests_head : pystr -> F -> World -> (exception + HeadResponse) * World)
    (url : pystr) (t : F) (s : Sys (F := F) World) : Prop :=
  exists h cl,
    fst (requests_head url t (world s)) = inr h /\
    ((400 <=? head_status_code h) && (head_status_code h <? 600) = false) /\
    head_content_length h = Some cl /\ str_isdigit cl = true.

(** * Properties *)

(** ** Strings *)

Lemma startswith_spec (p s : pystr) :
  startswith p s = true <-> exists post, s = p ++ post.
Proof.
  revert s. induction p as [|a p IH]; intros s; simpl.
  - split; [intros _; exists s; reflexivity | reflexivity].
  - destruct s as [|b s].
    + split; [discriminate | intros [post H]; discriminate].
    + rewrite andb_true_iff, N.eqb_eq, IH. split.
      * intros [-> [post ->]]. exists post. reflexivity.
      * intros [post H]. injection H as -> ->. split; [reflexivity | exists post; reflexivity].
Qed.

Lemma str_in_spec (needle hay : pystr) :
  str_in needle hay = true <-> substring needle hay.
Proof.
  unfold substring. induction hay as [|c hay IH].
  - simpl. rewrite orb_false_r, startswith_spec. split.
    + intros [post H]. exists [], post. exact H.
    + intros [pre [post H]]. destruct pre; [exists post; exact H | discriminate].
  - change (str_in needle (c :: hay))
      with (startswith needle (c :: hay) || str_in needle hay).
    rewrite orb_true_iff, startswith_spec, IH. split.
    + intros [[post H] | [pre [post H]]].
      * exists [], post. exact H.
      * exists (c :: pre), post. rewrite H. reflexivity.
    + intros [pre [post H]]. destruct pre as [|d pre].
      * left. exists post. exact H.
      * right. injection H as -> ->. exists pre, post. reflexivity.
Qed.

Lemma forallb_Forall_true {A : Type} (f : A -> bool) (l : list A) :
  forallb f l = true <-> Forall (fun a => f a = true) l.
Proof.
  induction l as [|a l IH]; simpl.
  - split; [constructor | reflexivity].
  - rewrite andb_true_iff, IH, Forall_cons. reflexivity.
Qed.

Lemma split_token_app (t rest : pystr) :
  token t ->
  match rest with [] => True | d :: _ => isspace d = true end ->
  split (t ++ rest) = t :: split rest.
Proof.
  intros [Hne Hns] Hrest. induction t as [|c t IH]; [congruence|].
  apply Forall_cons in Hns as [Hc Hns].
  destruct t as [|c' t].
  - simpl. rewrite Hc. destruct rest as [|d rest']; [reflexivity|].
    rewrite Hrest. destruct (split (d :: rest')); reflexivity.
  - specialize (IH ltac:(discriminate) Hns).
    change (split ((c :: c' :: t) ++ rest))
      with (if isspace c then split ((c' :: t) ++ rest)
            else let r := split ((c' :: t) ++ rest) in
                 match (c' :: t) ++ rest, r with
                 | d :: _, t0 :: ts => if isspace d then [c] :: r else (c :: t0) :: ts
                 | _, _ => [c] :: r
                 end).
    rewrite Hc, IH. simpl. apply Forall_cons in Hns as [-> _]. reflexivity.
Qed.

Lemma split_space (c : N) (s : pystr) : isspace c = true -> split (c :: s) = split s.
Proof. intros H. simpl. rewrite H. reflexivity. Qed.

Lemma split_join (toks : list pystr) :
  Forall token toks -> split (join [0x20] toks) = toks.
Proof.
  induction toks as [|t toks IH]; intros H; [reflexivity|].
  apply Forall_cons in H as [Ht H]. destruct toks as [|t2 toks].
  - simpl. rewrite <- (app_nil_r t) at 1. rewrite split_token_app; [reflexivity | exact Ht | exact I].
  - change (join [0x20] (t :: t2 :: toks)) with (t ++ [0x20] ++ join [0x20] (t2 :: toks)).
    rewrite split_token_app; [| exact Ht | reflexivity].
    change ([0x20] ++ join [0x20] (t2 :: toks)) with (0x20 :: join [0x20] (t2 :: toks)).
    rewrite split_space by reflexivity. rewrite IH by exact H. reflexivity.
Qed.

Lemma split_tokens (s : pystr) : Forall token (split s).
Proof.
  induction s as [|c s IH]; [constructor|].
  simpl. destruct (isspace c) eqn:Hc; [exact IH|].
  assert (Hc1 : token [c]) by (split; [discriminate | repeat constructor; exact Hc]).
  destruct s as [|d s']; [constructor; [exact Hc1 | constructor]|].
  destruct (split (d :: s')) as [|t ts] eqn:Hs; [constructor; [exact Hc1 | constructor]|].
  destruct (isspace d).
  - constructor; [exact Hc1 | exact IH].
  - apply Forall_cons in IH as [[Hne Ht] Hts]. constructor; [|exact Hts].
    split; [discriminate | constructor; assumption].
Qed.

Lemma collapse_whitespace_idem (x : pystr) :
  collapse_whitespace (collapse_whitespace x) = collapse_whitespace x.
Proof.
  unfold collapse_whitespace. rewrite split_join by apply split_tokens. reflexivity.
Qed.

(** ** The normaliser on plain text *)

Ltac cmp_cases :=
  repeat match goal with
         | |- context [N.leb ?a ?b] => destruct (N.leb_spec a b); try lia
         | |- context [N.ltb ?a ?b] => destruct (N.ltb_spec a b); try lia
         | |- context [N.eqb ?a ?b] => destruct (N.eqb_spec a b); try lia
         end.

Lemma isspace_printable (c : N) : 0x21 <= c < 0x85 -> isspace c = false.
Proof. intros H. unfold isspace. cmp_cases; reflexivity. Qed.

Lemma isspace_plain_lower (c : N) : isspace (plain_lower c) = isspace c.
Proof.
  unfold plain_lower.
  destruct (N.leb_spec 0x41 c); [destruct (N.leb_spec c 0x5A)|]; simpl; try reflexivity.
  rewrite !isspace_printable by lia. reflexivity.
Qed.

Lemma plain_lower_idem (c : N) : plain_lower (plain_lower c) = plain_lower c.
Proof.
  unfold plain_lower.
  destruct (N.leb_spec 0x41 c); destruct (N.leb_spec c 0x5A); cbn [andb];
    cmp_cases; reflexivity.
Qed.

Lemma plain_plain_lower (c : N) : plain c = true -> plain (plain_lower c) = true.
Proof.
  unfold plain, plain_lower.
  destruct (N.leb_spec 0x41 c); destruct (N.leb_spec c 0x5A); cbn [andb];
    cmp_cases; simpl; intros; try reflexivity; discriminate.
Qed.

Lemma split_map (f : N -> N) (s : pystr) :
  (forall c, isspace (f c) = isspace c) ->
  split (List.map f s) = List.map (List.map f) (split s).
Proof.
  intros Hf. induction s as [|c s IH]; [reflexivity|].
  cbn [List.map split]. rewrite Hf, IH.
  destruct (isspace c); [reflexivity|].
  destruct s as [|d s']; [reflexivity|].
  cbn [List.map]. cbv zeta. destruct (split (d :: s')) as [|t ts]; [reflexivity|].
  cbn [List.map]. rewrite Hf. destruct (isspace d); reflexivity.
Qed.

Lemma join_map (f : N -> N) (sep : pystr) (toks : list pystr) :
  join (List.map f sep) (List.map (List.map f) toks) = List.map f (join sep toks).
Proof.
  induction toks as [|t toks IH]; [reflexivity|].
  destruct toks as [|t2 toks]; [reflexivity|].
  change (join sep (t :: t2 :: toks)) with (t ++ sep ++ join sep (t2 :: toks)).
  rewrite !List.map_app, <- IH. reflexivity.
Qed.

Lemma collapse_whitespace_map (f : N -> N) (x : pystr) :
  (forall c, isspace (f c) = isspace c) -> f 0x20 = 0x20 ->
  collapse_whitespace (List.map f x) = List.map f (collapse_whitespace x).
Proof.
  intros Hf H20. unfold collapse_whitespace.
  rewrite split_map by exact Hf. rewrite <- join_map. simpl. rewrite H20. reflexivity.
Qed.

Lemma split_Forall (P : N -> Prop) (s : pystr) :
  Forall P s -> Forall (Forall P) (split s).
Proof.
  induction s as [|c s IH]; intros H; [constructor|].
  apply Forall_cons in H as [Hc H]. specialize (IH H).
  simpl. destruct (isspace c); [exact IH|].
  assert (Hc1 : Forall P [c]) by (constructor; [exact Hc | constructor]).
  destruct s as [|d s']; [constructor; [exact Hc1 | constructor]|].
  destruct (split (d :: s')) as [|t ts]; [constructor; [exact Hc1 | constructor]|].
  destruct (isspace d).
  - constructor; [exact Hc1 | exact IH].
  - apply Forall_cons in IH as [Ht Hts]. constructor; [constructor; assumption | exact Hts].
Qed.

Lemma join_Forall (P : N -> Prop) (sep : pystr) (toks : list pystr) :
  Forall P sep -> Forall (Forall P) toks -> Forall P (join sep toks).
Proof.
  intros Hsep. induction toks as [|t toks IH]; intros H; [constructor|].
  apply Forall_cons in H as [Ht H]. destruct toks as [|t2 toks]; [exact Ht|].
  change (join sep (t :: t2 :: toks)) with (t ++ sep ++ join sep (t2 :: toks)).
  rewrite !Forall_app. auto.
Qed.

Lemma collapse_whitespace_Forall (P : N -> Prop) (x : pystr) :
  P 0x20 -> Forall P x -> Forall P (collapse_whitespace x).
Proof.
  intros H20 H. unfold collapse_whitespace.
  apply join_Forall; [constructor; [exact H20 | constructor] | apply split_Forall, H].
Qed.

Lemma replace_absent_head (a : N) (old new s : pystr) :
  Forall (fun c => c <> a) s -> replace (a :: old) new s = s.
Proof.
  unfold replace. induction s as [|c s IH]; intros H; [reflexivity|].
  apply Forall_cons in H as [Hc H]. cbn [replace_from startswith].
  destruct (N.eqb_spec a c) as [->|_]; [congruence|]. simpl. rewrite IH by exact H. reflexivity.
Qed.

Lemma apply_replacements_absent {U : Unicodedata} (table : list (pystr * pystr)) (x : pystr) :
  Forall (fun sd => match fst sd with
                    | [] => False
                    | a :: _ => Forall (fun c => c <> a) x
                    end) table ->
  apply_replacements table x = x.
Proof.
  unfold apply_replacements. induction 1 as [|[old new] table Hsd H IH]; [reflexivity|].
  cbn [fold_left fst snd] in *. destruct old as [|a old]; [contradiction|].
  rewrite replace_absent_head by exact Hsd. exact IH.
Qed.

Lemma apply_replacements_plain {U : Unicodedata} (x : pystr) :
  Forall (fun c => plain c = true) x -> apply_replacements replacements x = x.
Proof.
  intros H.
  assert (H8 : Forall (fun c => c <> 0xD8) x)
    by (eapply Forall_impl; [exact H | intros c Hc ->; discriminate]).
  assert (H9 : Forall (fun c => c <> 0xD9) x)
    by (eapply Forall_impl; [exact H | intros c Hc ->; discriminate]).
  apply apply_replacements_absent. unfold replacements.
  repeat (constructor; [assumption|]). constructor.
Qed.

Lemma strip_combining_plain {U : Unicodedata} (x : pystr) :
  (forall c, plain c = true -> combining c = 0) ->
  Forall (fun c => plain c = true) x -> strip_combining x = x.
Proof.
  intros Hc H. unfold strip_combining. induction H as [|c x Hp H IH]; [reflexivity|].
  simpl. rewrite (Hc c Hp), IH. reflexivity.
Qed.

(** On plain text the normaliser collapses whitespace and lower-cases. *)
Lemma _normalize_arabic_plain {U : Unicodedata} (x : pystr) :
  agrees_on_plain U -> forallb plain x = true ->
  _normalize_arabic x = List.map plain_lower (collapse_whitespace x).
Proof.
  intros (Hn & Hc & Hl) Hx. unfold _normalize_arabic.
  pose proof (proj1 (forallb_Forall_true _ _) Hx) as HF.
  rewrite (Hn x Hx), (strip_combining_plain x Hc HF), (apply_replacements_plain x HF).
  apply Hl. apply forallb_Forall_true.
  apply collapse_whitespace_Forall; [reflexivity | exact HF].
Qed.

Lemma normalized_plain (x : pystr) :
  forallb plain x = true ->
  forallb plain (List.map plain_lower (collapse_whitespace x)) = true.
Proof.
  intros Hx. apply forallb_Forall_true. apply Forall_map.
  eapply Forall_impl.
  - apply (collapse_whitespace_Forall (fun c => plain c = true));
      [reflexivity | apply forallb_Forall_true, Hx].
  - intros c. apply plain_plain_lower.
Qed.

(** ** The rows agree with the standard on plain text *)

Lemma rows_decomposition_plain (x : pystr) :
  Forall (fun c => plain c = true) x -> flat_map UnicodeRows.decomposition x = x.
Proof.
  induction 1 as [|c x Hc H IH]; [reflexivity|].
  simpl. rewrite IH. unfold plain in Hc. unfold UnicodeRows.decomposition.
  revert Hc. cmp_cases; simpl; intros; try reflexivity; discriminate.
Qed.

Lemma rows_ccc_plain (c : N) : plain c = true -> UnicodeRows.ccc c = 0.
Proof.
  unfold plain, UnicodeRows.ccc. cmp_cases; simpl; intros; try reflexivity; discriminate.
Qed.

Lemma rows_order_plain (x : pystr) :
  Forall (fun c => plain c = true) x -> UnicodeRows.canonical_order x = x.
Proof.
  unfold UnicodeRows.canonical_order.
  induction 1 as [|c x Hc H IH]; [reflexivity|].
  simpl. rewrite IH. destruct H as [|d x Hd H]; [reflexivity|].
  simpl. rewrite (rows_ccc_plain d Hd). reflexivity.
Qed.

Lemma rows_composite_plain (s c : N) :
  plain c = true -> UnicodeRows.primary_composite s c = None.
Proof.
  unfold plain, UnicodeRows.primary_composite.
  cmp_cases; simpl; intros; try reflexivity; discriminate.
Qed.

Lemma rows_compose_from_plain (x : pystr) (s : N) :
  Forall (fun c => plain c = true) x -> UnicodeRows.compose_from s [] 0 x = s :: x.
Proof.
  intros H. revert s. induction H as [|c x Hc H IH]; intros s; [reflexivity|].
  simpl. rewrite (rows_composite_plain s c Hc), (rows_ccc_plain c Hc). simpl.
  rewrite IH. reflexivity.
Qed.

Lemma rows_lower_plain (x : pystr) :
  Forall (fun c => plain c = true) x -> UnicodeRows.lower x = List.map plain_lower x.
Proof.
  unfold UnicodeRows.lower. induction 1 as [|c x Hc H IH]; [reflexivity|].
  simpl. rewrite IH. f_equal.
  unfold plain in Hc. unfold UnicodeRows.lower_char, plain_lower.
  revert Hc. cmp_cases; simpl; intros; try reflexivity; discriminate.
Qed.

Lemma ucd_rows_agrees_on_plain : agrees_on_plain ucd_rows.
Proof.
  repeat split.
  - intros x Hx. apply forallb_Forall_true in Hx. simpl. unfold UnicodeRows.nfkc.
    rewrite rows_decomposition_plain, rows_order_plain by exact Hx.
    destruct Hx as [|c x Hc Hx]; [reflexivity|].
    simpl. rewrite (rows_ccc_plain c Hc). simpl. apply rows_compose_from_plain, Hx.
  - intros c Hc. apply rows_ccc_plain, Hc.
  - intros x Hx. apply rows_lower_plain, forallb_Forall_true, Hx.
Qed.

(** ** The Page Matcher and the normaliser *)



(** C5, counterexample: for x = "İ" (U+0130), normalize(x) is "i" followed
    by U+0307, because lower-casing comes last and yields a combining
    mark, and normalize(normalize(x)) is "i". *)
Lemma C5_counterexample :
  _normalize_arabic (U := ucd_rows) [0x130] = [0x69; 0x307] /\
  _normalize_arabic (U := ucd_rows) (_normalize_arabic (U := ucd_rows) [0x130]) = [0x69] /\
  _normalize_arabic (U := ucd_rows) (_normalize_arabic (U := ucd_rows) [0x130])
    <> _normalize_arabic (U := ucd_rows) [0x130].
Proof.
  split; [vm_compute; reflexivity|].
  split; [vm_compute; reflexivity|].
  vm_compute. discriminate.
Qed.

(** The normaliser is not idempotent either where the removal of a
    combining mark lets NFKC compose two code points it had kept apart:
    U+09C7 U+0307 U+09BE is in NFKC form, its normal form is U+09C7 U+09BE,
    and the normal form of that is the single code point U+09CB. *)
Lemma normalize_composes_after_stripping :
  _normalize_arabic (U := ucd_rows) [0x9C7; 0x307; 0x9BE] = [0x9C7; 0x9BE] /\
  _normalize_arabic (U := ucd_rows) [0x9C7; 0x9BE] = [0x9CB].
Proof. split; vm_compute; reflexivity. Qed.

(** Lower-casing goes through the single spaces of a joined text. *)
Lemma lower_join {U : Unicodedata} (toks : list pystr) :
  lower_case_laws U ->
  str_lower (join [0x20] toks) = join [0x20] (List.map str_lower toks).
Proof.
  intros (_ & Hnil & Hsp & _). induction toks as [|t toks IH]; [exact Hnil|].
  destruct toks as [|t2 toks]; [reflexivity|].
  change (join [0x20] (t :: t2 :: toks)) with (t ++ 0x20 :: join [0x20] (t2 :: toks)).
  rewrite Hsp, IH. reflexivity.
Qed.

(** Lower-casing keeps collapsed whitespace collapsed. *)
Lemma collapse_lower_collapse {U : Unicodedata} (x : pystr) :
  lower_case_laws U ->
  collapse_whitespace (str_lower (collapse_whitespace x)) = str_lower (collapse_whitespace x).
Proof.
  intros HL. unfold collapse_whitespace. rewrite (lower_join _ HL).
  rewrite split_join; [reflexivity|].
  destruct HL as (_ & _ & _ & Htok & _).
  apply Forall_map. eapply Forall_impl; [apply split_tokens | exact Htok].
Qed.

(** No key of the table occurs in lower-cased text. *)
Lemma apply_replacements_lower {U : Unicodedata} (x : pystr) :
  lower_case_laws U ->
  apply_replacements replacements (str_lower x) = str_lower x.
Proof.
  intros (_ & _ & _ & _ & Hup). specialize (Hup x).
  assert (H8 : Forall (fun c => c <> 0xD8) (str_lower x))
    by (eapply Forall_impl; [exact Hup | intros c Hc; exact (proj1 Hc)]).
  assert (H9 : Forall (fun c => c <> 0xD9) (str_lower x))
    by (eapply Forall_impl; [exact Hup | intros c Hc; exact (proj2 Hc)]).
  apply apply_replacements_absent. unfold replacements.
  repeat (constructor; [assumption|]). constructor.
Qed.

Lemma strip_combining_none {U : Unicodedata} (x : pystr) :
  Forall (fun c => combining c = 0) x -> strip_combining x = x.
Proof.
  unfold strip_combining. induction 1 as [|c x Hc H IH]; [reflexivity|].
  simpl. rewrite Hc, IH. reflexivity.
Qed.

(** ** The lower-case rows *)

Lemma rows_lower_char_idem (c : N) :
  flat_map UnicodeRows.lower_char (UnicodeRows.lower_char c) = UnicodeRows.lower_char c.
Proof.
  unfold UnicodeRows.lower_char at 2.
  destruct (N.leb_spec 0x41 c); destruct (N.leb_spec c 0x5A); cbn [andb];
    repeat match goal with
           | |- context [N.eqb c ?k] =>
               destruct (N.eqb_spec c k) as [->|?]; [vm_compute; reflexivity|]
           end;
    cbn [flat_map]; rewrite app_nil_r; try reflexivity.
  unfold UnicodeRows.lower_char. cmp_cases; reflexivity.
Qed.

Lemma rows_lower_char_token (c : N) :
  isspace c = false -> token (UnicodeRows.lower_char c).
Proof.
  intros Hc. unfold UnicodeRows.lower_char.
  destruct (N.leb_spec 0x41 c); destruct (N.leb_spec c 0x5A); cbn [andb];
    [split; [discriminate | constructor; [apply isspace_printable; lia | constructor]]|..];
    cmp_cases;
    (split; [discriminate | repeat constructor; try exact Hc]).
Qed.

Lemma rows_lower_char_upper (c : N) :
  Forall (fun d => d <> 0xD8 /\ d <> 0xD9) (UnicodeRows.lower_char c).
Proof.
  unfold UnicodeRows.lower_char.
  destruct (N.leb_spec 0x41 c); destruct (N.leb_spec c 0x5A); cbn [andb];
    [repeat constructor; lia|..];
    cmp_cases; repeat constructor; lia.
Qed.

Lemma rows_lower_case_laws : lower_case_laws ucd_rows.
Proof.
  unfold lower_case_laws. cbn [str_lower ucd_rows]. unfold UnicodeRows.lower.
  split; [|split; [|split; [|split]]].
  - intros x. induction x as [|c x IH]; [reflexivity|].
    cbn [flat_map]. rewrite flat_map_app, IH, rows_lower_char_idem. reflexivity.
  - reflexivity.
  - intros a b. rewrite flat_map_app. reflexivity.
  - intros t [Hne Hns]. split.
    + destruct t as [|c t]; [congruence|]. apply Forall_cons in Hns as [Hc _].
      destruct (rows_lower_char_token c Hc) as [Hn _]. cbn [flat_map].
      destruct (UnicodeRows.lower_char c); [congruence | discriminate].
    + clear Hne. induction Hns as [|c t Hc Hns IH]; [constructor|].
      cbn [flat_map]. apply Forall_app. split; [apply (rows_lower_char_token c Hc) | exact IH].
  - intros x. induction x as [|c x IH]; [constructor|].
    cbn [flat_map]. apply Forall_app. split; [apply rows_lower_char_upper | exact IH].
Qed.

(** C5, amended: the normaliser is idempotent on every string whose normal
    form is in NFKC form and holds no combining mark:
    normalize(normalize(x)) == normalize(x) for every such x, and so for
    every string of ASCII characters and Arabic letters.  For every string
    at all, the replacement table, the whitespace collapsing and the
    lower-casing of a second pass leave the normal form as it is; what can
    change it is NFKC or the removal of marks, when lower-casing made a
    mark (U+0130) or when the removal of a mark or of a table key left
    code points that NFKC composes. *)
Theorem C5_normalize_idempotent_on_stable_forms (U : Unicodedata) :
  lower_case_laws U ->
  (forall x : pystr,
     str_lower (collapse_whitespace (apply_replacements replacements (_normalize_arabic x)))
     = _normalize_arabic x) /\
  (forall x : pystr,
     normalize_NFKC (_normalize_arabic x) = _normalize_arabic x ->
     Forall (fun c => combining c = 0) (_normalize_arabic x) ->
     _normalize_arabic (_normalize_arabic x) = _normalize_arabic x) /\
  (agrees_on_plain U ->
   forall x : pystr,
     forallb plain x = true ->
     _normalize_arabic (_normalize_arabic x) = _normalize_arabic x).
Proof.
  intros HL.
  assert (Hlast : forall x : pystr,
             str_lower (collapse_whitespace
                          (apply_replacements replacements (_normalize_arabic x)))
             = _normalize_arabic x).
  { intros x. unfold _normalize_arabic. cbv zeta.
    rewrite (apply_replacements_lower _ HL), (collapse_lower_collapse _ HL).
    apply (proj1 HL). }
  split; [exact Hlast|]. split.
  - intros x HN HC. unfold _normalize_arabic at 1. cbv zeta.
    rewrite HN, (strip_combining_none _ HC). apply Hlast.
  - intros HU x Hx.
    rewrite (_normalize_arabic_plain x HU Hx).
    rewrite (_normalize_arabic_plain _ HU (normalized_plain x Hx)).
    rewrite (collapse_whitespace_map plain_lower _ isspace_plain_lower eq_refl).
    rewrite collapse_whitespace_idem, List.map_map. apply List.map_ext.
    intros c. apply plain_lower_idem.
Qed.

Lemma C5_normalize_idempotent_on_stable_forms_witness :
  let x := lit "  HeLLo" ++ [0xA0; 0xD6; 0x6F; 0x308; 0x20; 0xD8; 0xA3; 0x71; 0x307; 0x09] in
  let y := lit "  Hello   World " ++ [0x633; 0x62C; 0x644; 0x20; 0x20; 0x627; 0x644; 0x627; 0x646] in
  _normalize_arabic (U := ucd_rows) x = lit "hello " ++ [0xF6; 0xF6; 0x20; 0xF8; 0xA7; 0x71] /\
  _normalize_arabic (U := ucd_rows) (_normalize_arabic (U := ucd_rows) x)
    = _normalize_arabic (U := ucd_rows) x /\
  _normalize_arabic (U := ucd_rows) (_normalize_arabic (U := ucd_rows) y)
    = _normalize_arabic (U := ucd_rows) y.
Proof.
  cbv zeta.
  pose proof (C5_normalize_idempotent_on_stable_forms ucd_rows rows_lower_case_laws)
    as (_ & Hstable & Hplain).
  split; [vm_compute; reflexivity|]. split.
  - apply Hstable; [vm_compute; reflexivity|]. vm_compute. repeat constructor.
  - apply Hplain; [exact ucd_rows_agrees_on_plain | vm_compute; reflexivity].
Defined.

(** ** The check of one URL *)

Section Checks.
Context {U : Unicodedata} {F : Type} {PF : PyFloat F}.
Variable World : Type.
Variable requests_get : pystr -> F -> World -> (exception + Response) * World.
Variable codec_decode : pystr -> list N -> pystr.
Variable args : Args F.

Local Abbreviation fetch url :=
  (page_contains_text World requests_get codec_decode url (args_find args) (args_timeout args)).
Local Abbreviation check := (check_url World requests_get codec_decode args).
Local Abbreviation run_sweep := (sweep World requests_get codec_decode args).

Lemma handle_result_eq (chat_id url : pystr) (e : bool) (prev : option bool) (s : Sys World) :
  handle_result World args url e prev (Some (args_tg_token args)) (Some chat_id) s
  = Ok e (after_check args chat_id url e prev s).
Proof.
  unfold handle_result, after_check, bind, print_status, try_except_pass, ret,
    _send_telegram_message, found_msg. simpl.
  destruct (should_notify e prev && truthy (args_tg_token args) && truthy chat_id);
    simpl; rewrite ?app_nil_r; reflexivity.
Qed.

Lemma page_contains_text_eq (url needle : pystr) (t : F) (s : Sys World) :
  page_contains_text World requests_get codec_decode url needle t s =
  let w := snd (requests_get url t (world s)) in
  let s1 := {| world := w; outbox := outbox s; console := console s |} in
  match fst (requests_get url t (world s)) with
  | inl e => Raise e s1
  | inr resp =>
      match raise_for_status resp with
      | Some e => Raise e s1
      | None => Ok (contains_text (codec_decode (select_encoding resp) (content resp)) needle) s1
      end
  end.
Proof.
  unfold page_contains_text, bind, do_requests_get.
  destruct (requests_get url t (world s)) as [[e|resp] w]; simpl; [reflexivity|].
  destruct (raise_for_status resp); reflexivity.
Qed.

(** A fetch sends nothing and prints nothing. *)
Lemma page_contains_text_logs (url needle : pystr) (t : F) (s : Sys World) :
  let r := page_contains_text World requests_get codec_decode url needle t s in
  outbox (result_sys r) = outbox s /\ console (result_sys r) = console s.
Proof.
  simpl. rewrite page_contains_text_eq. simpl.
  destruct (fst (requests_get url t (world s))) as [e|resp]; [split; reflexivity|].
  destruct (raise_for_status resp); split; reflexivity.
Qed.

(** The fetch raises a [requests] exception exactly when [requests.get]
    does or the status is an error status. *)
Lemma page_contains_text_raises (url needle : pystr) (t : F) (s s1 : Sys World) (e : exception) :
  only_request_exceptions requests_get ->
  page_contains_text World requests_get codec_decode url needle t s = Raise e s1 ->
  is_request_exception e = true.
Proof.
  intros Hreq. rewrite page_contains_text_eq. simpl.
  destruct (fst (requests_get url t (world s))) as [e'|resp] eqn:Hg.
  - intros [= <- _]. exact (Hreq _ _ _ _ Hg).
  - unfold raise_for_status.
    destruct ((400 <=? status_code resp) && (status_code resp <? 600)); intros [= <- _] || discriminate.
    reflexivity.
Qed.

Lemma check_url_eq (chat_id url : pystr) (states : gmap pystr (option bool)) (s : Sys World) :
  check chat_id url states s =
  match fetch url s with
  | Ok e s1 =>
      Ok (<[url := Some e]> states) (after_check args chat_id url e (states_get states url) s1)
  | Raise ex s1 =>
      if is_request_exception ex
      then Ok (<[url := Some false]> states)
              (after_check args chat_id url false (states_get states url) s1)
      else Raise ex s1
  end.
Proof.
  unfold check_url, try_except_requests, bind.
  destruct (page_contains_text _ _ _ _ _ _ s) as [e s1|ex s1].
  - rewrite handle_result_eq. reflexivity.
  - destruct (is_request_exception ex); [|reflexivity].
    rewrite handle_result_eq. reflexivity.
Qed.

Lemma sweep_cons (chat_id url : pystr) (rest : list pystr)
    (states : gmap pystr (option bool)) (s : Sys World) :
  run_sweep chat_id (url :: rest) states s =
  match check chat_id url states s with
  | Ok states1 s1 => run_sweep chat_id rest states1 s1
  | Raise e s1 => Raise e s1
  end.
Proof. reflexivity. Qed.

Lemma sweep_app (chat_id : pystr) (before after : list pystr)
    (states : gmap pystr (option bool)) (s : Sys World) :
  run_sweep chat_id (before ++ after) states s =
  match run_sweep chat_id before states s with
  | Ok states1 s1 => run_sweep chat_id after states1 s1
  | Raise e s1 => Raise e s1
  end.
Proof.
  revert states s. induction before as [|u before IH]; intros states s; [reflexivity|].
  rewrite <- app_comm_cons, !sweep_cons.
  destruct (check chat_id u states s) as [states1 s1|e s1]; [apply IH | reflexivity].
Qed.

(** What one check does when it returns: it stores the result under the
    URL, prints one line, and sends the notification or nothing. *)
Lemma check_url_ok (chat_id url : pystr) (states states' : gmap pystr (option bool))
    (s s' : Sys World) :
  check chat_id url states s = Ok states' s' ->
  exists e : bool,
    states' = <[url := Some e]> states /\
    console s' = console s ++ [(url, e)] /\
    outbox s' = outbox s ++
      (if should_notify e (states_get states url)
          && truthy (args_tg_token args) && truthy chat_id
       then [found_msg args chat_id url] else []).
Proof.
  rewrite check_url_eq.
  pose proof (page_contains_text_logs url (args_find args) (args_timeout args) s) as Hlog.
  simpl in Hlog.
  destruct (fetch url s) as [e s1|ex s1]; simpl in Hlog; destruct Hlog as [Ho Hc].
  - intros [= <- <-]. exists e. simpl. rewrite Ho, Hc. auto.
  - destruct (is_request_exception ex); [|discriminate].
    intros [= <- <-]. exists false. simpl. rewrite Ho, Hc. auto.
Qed.

Lemma sweep_console (chat_id : pystr) (urls : list pystr)
    (states states' : gmap pystr (option bool)) (s s' : Sys World) :
  run_sweep chat_id urls states s = Ok states' s' ->
  exists l, console s' = console s ++ l /\ List.map fst l = urls.
Proof.
  revert states s. induction urls as [|u urls IH]; intros states s.
  - intros [= <- <-]. exists []. rewrite app_nil_r. auto.
  - rewrite sweep_cons. destruct (check chat_id u states s) as [st1 s1|] eqn:Hc; [|discriminate].
    intros Hs. apply check_url_ok in Hc as (e & _ & Hcon & _).
    apply IH in Hs as (l & Hl & Hm). exists ((u, e) :: l).
    rewrite Hl, Hcon, <- app_assoc. simpl. rewrite Hm. auto.
Qed.

Lemma sweep_states_other (chat_id : pystr) (urls : list pystr)
    (states states' : gmap pystr (option bool)) (s s' : Sys World) (u : pystr) :
  run_sweep chat_id urls states s = Ok states' s' ->
  ~ In u urls -> states' !! u = states !! u.
Proof.
  revert states s. induction urls as [|x urls IH]; intros states s.
  - intros [= <- <-] _. reflexivity.
  - rewrite sweep_cons. destruct (check chat_id x states s) as [st1 s1|] eqn:Hc; [|discriminate].
    intros Hs Hn. apply check_url_ok in Hc as (e & -> & _).
    rewrite (IH _ _ Hs) by (intros Hin; apply Hn; right; exact Hin).
    apply lookup_insert_ne. intros ->. apply Hn. left. reflexivity.
Qed.

(** With fetches that raise only [requests] exceptions, a sweep returns. *)
Lemma sweep_returns (chat_id : pystr) (urls : list pystr)
    (states : gmap pystr (option bool)) (s : Sys World) :
  only_request_exceptions requests_get ->
  exists states' s', run_sweep chat_id urls states s = Ok states' s'.
Proof.
  intros Hreq. revert states s. induction urls as [|u urls IH]; intros states s.
  - eexists _, _. reflexivity.
  - rewrite sweep_cons, check_url_eq.
    destruct (fetch u s) as [e s1|ex s1] eqn:Hf; [apply IH|].
    rewrite (page_contains_text_raises _ _ _ _ _ _ Hreq Hf). apply IH.
Qed.

End Checks.

(** The scripted world raises only [requests] exceptions. *)
Lemma Sim_only_request_exceptions : only_request_exceptions Sim.requests_get.
Proof.
  intros url t w e. unfold Sim.requests_get.
  destruct (Sim.script w) as [|[latency [resp|]] rest]; simpl; intros [= <-] || discriminate;
    reflexivity.
Qed.

(** ** Notifications *)

(** C1: a check of a watch task's URL that returns stores the new result,
    and sends the notification if and only if the new result is present and
    the state stored before was not present; [handle_result] itself always
    returns.  From the stored state unknown, five checks that find the text
    absent, present, present, absent, present take the stored state through
    [unknown, absent, present, present, absent, present] and send exactly
    two notifications, on entering the 3rd and the 6th state of that
    sequence; the present-to-present check sends none. *)
Theorem C1_notify_iff_enters_present :
  (forall (U : Unicodedata) (F World : Type)
     (requests_get : pystr -> F -> World -> (exception + Response) * World)
     (codec_decode : pystr -> list N -> pystr) (args : Args F)
     (chat_id url : pystr) (states states' : gmap pystr (option bool))
     (s s' : Sys World),
     truthy (args_tg_token args) = true -> truthy chat_id = true ->
     check_url World requests_get codec_decode args chat_id url states s = Ok states' s' ->
     exists new : bool,
       states_get states' url = Some new /\
       ((new = true /\ states_get states url <> Some true) /\
          outbox s' = outbox s ++ [found_msg args chat_id url]
        \/ ~ (new = true /\ states_get states url <> Some true) /\
          outbox s' = outbox s)) /\
  (forall (F World : Type) (args : Args F) (chat_id url : pystr) (e : bool)
     (prev : option bool) (s : Sys World),
     exists s', handle_result World args url e prev
                  (Some (args_tg_token args)) (Some chat_id) s = Ok e s') /\
  (let u := lit "https://a.test" in
   let fetches := [(3, Sim.page "coming soon"); (3, Sim.page "Register  NOW");
                   (3, Sim.page "register now!"); (3, Sim.page "closed");
                   (3, Sim.page "REGISTER NOW")]%Q in
   let after k :=
     match sweep (U := ucd_rows) Sim.World Sim.requests_get Sim.codec_decode Sim.args
             (lit "42") (replicate k u) (fresh_states [u]) (Sim.start 100 fetches) with
     | Ok states s => (states_get states u, outbox s)
     | Raise _ s => (None, outbox s)
     end in
   let note := found_msg Sim.args (lit "42") u in
   List.map after [0; 1; 2; 3; 4; 5]%nat =
   [(None, []); (Some false, []); (Some true, [note]); (Some true, [note]);
    (Some false, [note]); (Some true, [note; note])]).
Proof.
  split; [|split].
  - intros U F World requests_get codec_decode args chat_id url states states' s s'
      Htok Hchat Hc.
    apply check_url_ok in Hc as (e & -> & _ & Hout).
    exists e. unfold states_get at 1. rewrite lookup_insert_eq. split; [reflexivity|].
    rewrite Htok, Hchat, !andb_true_r in Hout. unfold should_notify in Hout.
    destruct e, (states_get states url) as [[|]|]; simpl in Hout;
      rewrite ?app_nil_r in Hout;
      solve [ left; split; [split; [reflexivity | discriminate] | exact Hout]
            | right; split; [intros [H1 H2]; congruence | exact Hout] ].
  - intros F World args chat_id url e prev s. eexists. apply handle_result_eq.
  - vm_compute. reflexivity.
Qed.

Lemma C1_notify_iff_enters_present_witness :
  let u := lit "https://a.test" in
  let s := Sim.start 100 [(3, Sim.page "Register  NOW")]%Q in
  exists states' s',
    check_url (U := ucd_rows) Sim.World Sim.requests_get Sim.codec_decode Sim.args
      (lit "42") u (fresh_states [u]) s = Ok states' s' /\
    outbox s' = outbox s ++ [found_msg Sim.args (lit "42") u].
Proof.
  simpl. eexists _, _. split; [vm_compute; reflexivity|].
  destruct (proj1 C1_notify_iff_enters_present ucd_rows Q Sim.World Sim.requests_get
              Sim.codec_decode Sim.args (lit "42") (lit "https://a.test")
              (fresh_states [lit "https://a.test"]) _
              (Sim.start 100 [(3, Sim.page "Register  NOW")]%Q) _
              eq_refl eq_refl eq_refl) as (new & Hnew & [[_ Hout] | [Hno _]]).
  - exact Hout.
  - exfalso. apply Hno. vm_compute in Hnew. injection Hnew as <-. split; [reflexivity | discriminate].
Defined.

(** ** Due checks *)

Section DueChecks.
Context {U : Unicodedata} {F : Type} {PF : PyFloat F}.
Variable World : Type.
Variable requests_get : pystr -> F -> World -> (exception + Response) * World.
Variable codec_decode : pystr -> list N -> pystr.
Variable args : Args F.

Lemma check_task_ok (now : F) (chat_id : pystr) (task task' : Task F) (s s' : Sys World) :
  check_task World requests_get codec_decode args now chat_id task s = Ok task' s' ->
  rescheduled now (chat_id, task) (chat_id, task').
Proof.
  unfold check_task, rescheduled, bind, ret. simpl.
  destruct (f_ge now (task_next_at task)).
  - destruct (sweep _ _ _ _ _ _ _ s); [|discriminate]. intros [= <- _]. auto.
  - intros [= <- _]. auto.
Qed.

Lemma check_tasks_ok (now : F) (tasks tasks' : list (pystr * Task F)) (s s' : Sys World) :
  check_tasks World requests_get codec_decode args now tasks s = Ok tasks' s' ->
  Forall2 (rescheduled now) tasks tasks'.
Proof.
  revert tasks' s s'. induction tasks as [|[chat_id task] tasks IH]; intros tasks' s s'.
  - intros [= <- _]. constructor.
  - cbn [check_tasks]. unfold bind at 1.
    destruct (check_task _ _ _ _ _ _ _ s) as [task1 s1|] eqn:Ht; [|discriminate].
    unfold bind at 1.
    destruct (check_tasks _ _ _ _ _ _ s1) as [rest1 s2|] eqn:Hr; [|discriminate].
    intros [= <- _]. constructor; [eapply check_task_ok, Ht | eapply IH, Hr].
Qed.

Lemma check_tasks_returns (now : F) (tasks : list (pystr * Task F)) (s : Sys World) :
  only_request_exceptions requests_get ->
  exists tasks' s', check_tasks World requests_get codec_decode args now tasks s = Ok tasks' s'.
Proof.
  intros Hreq. revert s. induction tasks as [|[chat_id task] tasks IH]; intros s.
  - eexists _, _. reflexivity.
  - cbn [check_tasks]. unfold bind at 1.
    assert (Ht : exists task1 s1,
               check_task World requests_get codec_decode args now chat_id task s = Ok task1 s1).
    { unfold check_task, bind. destruct (f_ge now (task_next_at task)).
      - destruct (sweep_returns World requests_get codec_decode args chat_id
                    (task_urls task) (task_states task) s Hreq) as (st & s1 & ->).
        eexists _, _. reflexivity.
      - eexists _, _. reflexivity. }
    destruct Ht as (task1 & s1 & ->). unfold bind at 1.
    destruct (IH s1) as (rest1 & s2 & ->). eexists _, _. reflexivity.
Qed.

End DueChecks.

(** ** One turn of the loop *)

Section Loop.
Context {U : Unicodedata} {F : Type} {PF : PyFloat F}.
Variable World : Type.
Variable requests_get : pystr -> F -> World -> (exception + Response) * World.
Variable codec_decode : pystr -> list N -> pystr.
Variable time_time : World -> F.
Variable time_sleep : F -> World -> World.
Variable telegram_get_updates : pystr -> option Z -> World -> list Update * World.
Variable args : Args F.

(** Handling a command never raises. *)
Lemma handle_command_returns (token chat_id text : pystr)
    (tasks : list (pystr * Task F)) (s : Sys World) :
  exists tasks' s', handle_command World args token chat_id text tasks s = Ok tasks' s'.
Proof.
  unfold handle_command, bind, _send_telegram_message, ret.
  destruct (parse_command text) as [cmd cmd_args].
  destruct (is_cmd cmd "/watch" "watch" && (1 <=? length cmd_args)%nat).
  { destruct (scan_watch_args args cmd_args) as [[|u urls] interval];
      eexists _, _; reflexivity. }
  destruct (is_cmd cmd "/stop" "stop").
  { destruct (dict_get tasks chat_id); eexists _, _; reflexivity. }
  destruct (is_cmd cmd "/status" "status").
  { destruct (dict_get tasks chat_id); eexists _, _; reflexivity. }
  destruct (is_cmd cmd "/help" "help" || is_cmd cmd "/start" "start");
    eexists _, _; reflexivity.
Qed.

(** An update runs to its end unless the message it reads has a chat
    object without an id. *)
Lemma process_update_returns (token : pystr) (upd : Update) (st : BotState) (s : Sys World) :
  chat_has_id upd ->
  exists st' s', process_update World args token st upd s = Ok st' s'.
Proof.
  unfold chat_has_id, process_update.
  destruct (message_or_edited upd) as [m|]; [|eexists _, _; reflexivity].
  intros Hid. destruct (negb (msg_truthy m)); [eexists _, _; reflexivity|].
  unfold read_chat_id.
  destruct (msg_chat m) as [[chat_id|]|]; [| congruence | eexists _, _; reflexivity].
  unfold bind at 1, ret at 1.
  destruct (negb (truthy_opt (Some chat_id)) || negb (truthy (default [] (msg_text m))));
    [eexists _, _; reflexivity|].
  unfold bind.
  destruct (handle_command_returns token (default [] (Some chat_id))
              (default [] (msg_text m)) (tasks st) s) as (tasks' & s1 & ->).
  eexists _, _. reflexivity.
Qed.

(** A chat object without an id makes the update raise, in the state it
    was reached in. *)
Lemma process_update_raises (token : pystr) (st : BotState) (upd : Update) (s : Sys World) :
  ~ chat_has_id upd ->
  process_update World args token st upd s = Raise OtherException s.
Proof.
  unfold chat_has_id, process_update.
  destruct (message_or_edited upd) as [m|]; [|intros H; destruct H; exact I].
  intros H. unfold msg_truthy, read_chat_id.
  destruct (msg_chat m) as [[chat_id|]|]; [destruct H; discriminate | | destruct H; discriminate].
  reflexivity.
Qed.

Lemma chat_has_id_dec (upd : Update) : chat_has_id upd \/ ~ chat_has_id upd.
Proof.
  unfold chat_has_id. destruct (message_or_edited upd) as [m|]; [|left; exact I].
  destruct (msg_chat m) as [[chat_id|]|]; [left; discriminate | right | left; discriminate].
  intros H. apply H. reflexivity.
Qed.

Lemma process_updates_keyed (token : pystr) (updates : list Update)
    (st st' : BotState) (s s' : Sys World) :
  process_updates World args token st updates s = Ok st' s' ->
  Forall chat_has_id updates.
Proof.
  revert st s. induction updates as [|upd updates IH]; intros st s Hrun; [constructor|].
  cbn [process_updates] in Hrun. unfold bind at 1 in Hrun.
  destruct (chat_has_id_dec upd) as [Hid|Hid].
  - constructor; [exact Hid|].
    destruct (process_update World args token st upd s) as [st1 s1|]; [|discriminate].
    eapply IH, Hrun.
  - rewrite (process_update_raises token st upd s Hid) in Hrun. discriminate.
Qed.

(** The first update with a chat object without an id ends the batch: the
    updates before it have been processed, those after it are not. *)
Lemma process_updates_raises (token : pystr) (before after : list Update) (upd : Update)
    (st st1 : BotState) (s s1 : Sys World) :
  process_updates World args token st before s = Ok st1 s1 ->
  ~ chat_has_id upd ->
  process_updates World args token st (before ++ upd :: after) s = Raise OtherException s1.
Proof.
  revert st s. induction before as [|b before IH]; intros st s Hrun Hid.
  - injection Hrun as <- <-. cbn [app process_updates]. unfold bind at 1.
    rewrite (process_update_raises token st upd s Hid). reflexivity.
  - cbn [app process_updates] in *. unfold bind at 1 in Hrun. unfold bind at 1.
    destruct (process_update World args token st b s) as [st2 s2|]; [|discriminate].
    apply IH; assumption.
Qed.

Lemma process_updates_returns (token : pystr) (updates : list Update)
    (st : BotState) (s : Sys World) :
  Forall chat_has_id updates ->
  exists st' s', process_updates World args token st updates s = Ok st' s'.
Proof.
  intros H. revert st s. induction H as [|upd updates Hupd H IH]; intros st s.
  - eexists _, _. reflexivity.
  - cbn [process_updates]. unfold bind at 1.
    destruct (process_update_returns token upd st s Hupd) as (st1 & s1 & ->). apply IH.
Qed.

(** With fetches that raise only [requests] exceptions and updates whose
    chat objects have their id, a turn of the loop runs to its end. *)
Lemma bot_iteration_returns (st : BotState) (s : Sys World) :
  only_request_exceptions requests_get ->
  Forall chat_has_id
    (fst (telegram_get_updates (args_tg_token args) (next_offset st) (world s))) ->
  exists st' s',
    bot_iteration World requests_get codec_decode time_time time_sleep
      telegram_get_updates args st s = Ok st' s'.
Proof.
  intros Hreq Hupd. unfold bot_iteration, bind at 1, _get_telegram_updates.
  destruct (telegram_get_updates (args_tg_token args) (next_offset st) (world s))
    as [updates w].
  unfold bind at 1.
  destruct (process_updates_returns (args_tg_token args) updates st
              {| world := w; outbox := outbox s; console := console s |} Hupd)
    as (st1 & s1 & ->).
  unfold bind at 1, run_due_checks, bind at 1, now_.
  destruct (check_tasks_returns World requests_get codec_decode args
              (time_time (world s1)) (tasks st1) s1 Hreq) as (tasks' & s2 & ->).
  eexists _, _. reflexivity.
Qed.

(** A turn of the loop that runs to its end met no chat object without an
    id. *)
Lemma bot_iteration_keyed (st st' : BotState) (s s' : Sys World) :
  bot_iteration World requests_get codec_decode time_time time_sleep
    telegram_get_updates args st s = Ok st' s' ->
  Forall chat_has_id
    (fst (telegram_get_updates (args_tg_token args) (next_offset st) (world s))).
Proof.
  unfold bot_iteration, bind at 1, _get_telegram_updates.
  destruct (telegram_get_updates (args_tg_token args) (next_offset st) (world s))
    as [updates w].
  unfold bind at 1.
  destruct (process_updates _ _ _ _ _ _) as [st1 s1|] eqn:H1; [|discriminate].
  intros _. eapply process_updates_keyed, H1.
Qed.

End Loop.

(** C3: a tick reads [now] once, before the due checks; every task it
    finds due leaves the tick with its next due time set to now plus its
    interval, whatever the fetches of the sweep did to the clock, and tasks
    not due are left as they were.  With interval 5, a tick at t=100 whose
    fetch takes 3 seconds leaves the next due time at 105 while the clock
    reads 103. *)
Theorem C3_next_due_anchored_to_tick_now :
  (forall (U : Unicodedata) (F : Type) (PF : PyFloat F) (World : Type)
     (requests_get : pystr -> F -> World -> (exception + Response) * World)
     (codec_decode : pystr -> list N -> pystr) (time_time : World -> F)
     (args : Args F) (tasks tasks' : list (pystr * Task F)) (s s' : Sys World),
     run_due_checks World requests_get codec_decode time_time args tasks s = Ok tasks' s' ->
     Forall2 (rescheduled (time_time (world s))) tasks tasks') /\
  (forall (U : Unicodedata) (F : Type) (PF : PyFloat F) (World : Type)
     (requests_get : pystr -> F -> World -> (exception + Response) * World)
     (codec_decode : pystr -> list N -> pystr) (time_time : World -> F)
     (args : Args F) (tasks : list (pystr * Task F)) (s : Sys World),
     only_request_exceptions requests_get ->
     exists tasks' s',
       run_due_checks World requests_get codec_decode time_time args tasks s = Ok tasks' s') /\
  (let u := lit "https://a.test" in
   match run_due_checks (U := ucd_rows) (PF := Q_float) Sim.World Sim.requests_get
           Sim.codec_decode Sim.time_time Sim.args
           [(lit "42", new_task (PF := Q_float) [u] 5%Q)]
           (Sim.start 100 [(3, Sim.page "register now")]%Q) with
   | Ok [(_, task)] s' =>
       task_next_at task = 105%Q /\ Sim.clock (world s') = 103%Q
   | _ => False
   end).
Proof.
  split; [|split].
  - intros U F PF World requests_get codec_decode time_time args tasks tasks' s s' H.
    unfold run_due_checks, bind, now_ in H. eapply check_tasks_ok, H.
  - intros U F PF World requests_get codec_decode time_time args tasks s Hreq.
    unfold run_due_checks, bind, now_. apply check_tasks_returns, Hreq.
  - vm_compute. split; reflexivity.
Qed.

Lemma C3_next_due_anchored_to_tick_now_witness :
  let tasks := [(lit "42", new_task (PF := Q_float) [lit "https://a.test"] 5%Q)] in
  let s := Sim.start 100 [(3, None)]%Q in
  exists tasks' s',
    run_due_checks (U := ucd_rows) (PF := Q_float) Sim.World Sim.requests_get
      Sim.codec_decode Sim.time_time Sim.args tasks s = Ok tasks' s' /\
    Forall2 (rescheduled (PF := Q_float) 100%Q) tasks tasks'.
Proof.
  cbv zeta.
  destruct (proj1 (proj2 C3_next_due_anchored_to_tick_now) ucd_rows Q Q_float Sim.World
              Sim.requests_get Sim.codec_decode Sim.time_time Sim.args
              [(lit "42", new_task (PF := Q_float) [lit "https://a.test"] 5%Q)]
              (Sim.start 100 [(3, None)]%Q) Sim_only_request_exceptions)
    as (tasks' & s' & Hrun).
  exists tasks', s'. split; [exact Hrun|].
  exact (proj1 C3_next_due_anchored_to_tick_now ucd_rows Q Q_float Sim.World
           Sim.requests_get Sim.codec_decode Sim.time_time Sim.args _ _ _ _ Hrun).
Defined.

(** ** Fetch errors *)

(** C2: when the fetch of a URL raises a [requests] exception (transport,
    HTTP status or timeout) during a sweep, the URL's state is set to
    absent, nothing is sent for it, and the sweep goes on with the URLs
    that follow; the state is still absent at the end of the sweep if the
    URL is not listed again.  With fetches that raise only such exceptions
    a sweep returns, having checked every URL of the list in order, and a
    turn of the bot loop runs to its end; the only thing that ends a turn
    early is then an update whose chat object has no id, on which the
    command handling raises. *)
Theorem C2_fetch_error_is_absent_and_sweep_continues :
  (forall (U : Unicodedata) (F World : Type)
     (requests_get : pystr -> F -> World -> (exception + Response) * World)
     (codec_decode : pystr -> list N -> pystr) (args : Args F)
     (chat_id url : pystr) (before after : list pystr)
     (states states1 : gmap pystr (option bool)) (s s1 s2 : Sys World) (e : exception),
     sweep World requests_get codec_decode args chat_id before states s = Ok states1 s1 ->
     page_contains_text World requests_get codec_decode url
       (args_find args) (args_timeout args) s1 = Raise e s2 ->
     is_request_exception e = true ->
     let states2 := <[url := Some false]> states1 in
     let s3 := after_check args chat_id url false (states_get states1 url) s2 in
     sweep World requests_get codec_decode args chat_id (before ++ url :: after) states s
       = sweep World requests_get codec_decode args chat_id after states2 s3 /\
     states_get states2 url = Some false /\
     outbox s3 = outbox s1 /\
     (forall states' s',
        sweep World requests_get codec_decode args chat_id after states2 s3 = Ok states' s' ->
        ~ In url after -> states_get states' url = Some false)) /\
  (forall (U : Unicodedata) (F World : Type)
     (requests_get : pystr -> F -> World -> (exception + Response) * World)
     (codec_decode : pystr -> list N -> pystr) (args : Args F)
     (chat_id : pystr) (urls : list pystr)
     (states : gmap pystr (option bool)) (s : Sys World),
     only_request_exceptions requests_get ->
     exists states' s' l,
       sweep World requests_get codec_decode args chat_id urls states s = Ok states' s' /\
       console s' = console s ++ l /\ List.map fst l = urls) /\
  (forall (U : Unicodedata) (F : Type) (PF : PyFloat F) (World : Type)
     (requests_get : pystr -> F -> World -> (exception + Response) * World)
     (codec_decode : pystr -> list N -> pystr) (time_time : World -> F)
     (time_sleep : F -> World -> World)
     (telegram_get_updates : pystr -> option Z -> World -> list Update * World)
     (args : Args F) (st : BotState) (s : Sys World),
     only_request_exceptions requests_get ->
     ((exists st' s',
         bot_iteration World requests_get codec_decode time_time time_sleep
           telegram_get_updates args st s = Ok st' s')
      <-> Forall chat_has_id
            (fst (telegram_get_updates (args_tg_token args) (next_offset st) (world s))))).
Proof.
  split; [|split].
  - intros U F World requests_get codec_decode args chat_id url before after
      states states1 s s1 s2 e Hbefore Hfetch He. cbv zeta.
    split; [|split; [|split]].
    + rewrite sweep_app, Hbefore, sweep_cons, check_url_eq, Hfetch, He. reflexivity.
    + unfold states_get. rewrite lookup_insert_eq. reflexivity.
    + pose proof (page_contains_text_logs World requests_get codec_decode url
                    (args_find args) (args_timeout args) s1) as [Ho _].
      rewrite Hfetch in Ho. simpl in Ho. simpl. rewrite app_nil_r. exact Ho.
    + intros states' s' Hs Hn. unfold states_get.
      rewrite (sweep_states_other _ _ _ _ _ _ _ _ _ _ _ Hs Hn), lookup_insert_eq.
      reflexivity.
  - intros U F World requests_get codec_decode args chat_id urls states s Hreq.
    destruct (sweep_returns World requests_get codec_decode args chat_id urls states s Hreq)
      as (states' & s' & Hs).
    destruct (sweep_console _ _ _ _ _ _ _ _ _ _ Hs) as (l & Hl & Hm).
    exists states', s', l. auto.
  - intros U F PF World requests_get codec_decode time_time time_sleep
      telegram_get_updates args st s Hreq. split.
    + intros (st' & s' & Hrun). eapply bot_iteration_keyed, Hrun.
    + intros Hupd. apply bot_iteration_returns; assumption.
Qed.

Lemma C2_fetch_error_is_absent_and_sweep_continues_witness :
  let a := lit "https://a.test" in
  let b := lit "https://b.test" in
  let s := Sim.start 100 [(15, None); (3, Sim.page "Register now")]%Q in
  (exists states' s',
     sweep (U := ucd_rows) Sim.World Sim.requests_get Sim.codec_decode Sim.args
       (lit "42") ([] ++ a :: [b]) (fresh_states [a; b]) s = Ok states' s' /\
     states_get states' a = Some false /\ states_get states' b = Some true /\
     console s' = [(a, false); (b, true)] /\
     outbox s' = [found_msg Sim.args (lit "42") b]) /\
  (exists states' s' l,
     sweep (U := ucd_rows) Sim.World Sim.requests_get Sim.codec_decode Sim.args
       (lit "42") [a; b] (fresh_states [a; b]) s = Ok states' s' /\
     console s' = console s ++ l /\ List.map fst l = [a; b]) /\
  (exists st' s',
     bot_iteration (U := ucd_rows) (PF := Q_float) Sim.World Sim.requests_get
       Sim.codec_decode Sim.time_time Sim.time_sleep Sim.telegram_get_updates Sim.args
       {| tasks := [(lit "42", new_task (PF := Q_float) [a; b] 5%Q)]; next_offset := None |} s
     = Ok st' s').
Proof.
  cbv zeta. split; [|split].
  - destruct (proj1 C2_fetch_error_is_absent_and_sweep_continues ucd_rows Q Sim.World
                Sim.requests_get Sim.codec_decode Sim.args (lit "42") (lit "https://a.test")
                [] [lit "https://b.test"]
                (fresh_states [lit "https://a.test"; lit "https://b.test"]) _
                (Sim.start 100 [(15, None); (3, Sim.page "Register now")]%Q) _ _
                Timeout eq_refl eq_refl eq_refl) as (Heq & _).
    rewrite Heq. eexists _, _. split; [vm_compute; reflexivity|].
    repeat split; vm_compute; reflexivity.
  - exact (proj1 (proj2 C2_fetch_error_is_absent_and_sweep_continues) ucd_rows Q Sim.World
             Sim.requests_get Sim.codec_decode Sim.args (lit "42")
             [lit "https://a.test"; lit "https://b.test"]
             (fresh_states [lit "https://a.test"; lit "https://b.test"])
             (Sim.start 100 [(15, None); (3, Sim.page "Register now")]%Q)
             Sim_only_request_exceptions).
  - exact (proj2 (proj2 (proj2 C2_fetch_error_is_absent_and_sweep_continues) ucd_rows Q Q_float
             Sim.World Sim.requests_get Sim.codec_decode Sim.time_time Sim.time_sleep
             Sim.telegram_get_updates Sim.args
             {| tasks := [(lit "42", new_task (PF := Q_float)
                                       [lit "https://a.test"; lit "https://b.test"] 5%Q)];
                next_offset := None |}
             (Sim.start 100 [(15, None); (3, Sim.page "Register now")]%Q)
             Sim_only_request_exceptions) (List.Forall_nil _)).
Defined.

(** ** Duplicated URLs *)

Lemma fresh_states_dom_from (urls : list pystr) (m : gmap pystr (option bool)) :
  dom (fold_left (fun m url => <[url := None]> m) urls m)
  = (list_to_set urls : gset pystr) ∪ dom m.
Proof.
  revert m. induction urls as [|u urls IH]; intros m; simpl.
  - rewrite (left_id_L ∅ (∪)). reflexivity.
  - rewrite IH, dom_insert_L, (assoc_L (∪)), (comm_L (∪) (list_to_set urls) {[u]}).
    reflexivity.
Qed.

Lemma fresh_states_dom (urls : list pystr) :
  dom (fresh_states urls) = (list_to_set urls : gset pystr).
Proof.
  unfold fresh_states. rewrite fresh_states_dom_from, dom_empty_L.
  apply (right_id_L ∅ (∪)).
Qed.

Lemma fresh_states_get_from (urls : list pystr) (m : gmap pystr (option bool)) (u : pystr) :
  states_get m u = None ->
  states_get (fold_left (fun m url => <[url := None]> m) urls m) u = None.
Proof.
  revert m. induction urls as [|x urls IH]; intros m H; simpl; [exact H|].
  apply IH. unfold states_get in *.
  destruct (decide (x = u)) as [->|Hne].
  - rewrite lookup_insert_eq. reflexivity.
  - rewrite lookup_insert_ne by exact Hne. exact H.
Qed.

(** Every state of a fresh task reads as unknown. *)
Lemma fresh_states_get (urls : list pystr) (u : pystr) :
  states_get (fresh_states urls) u = None.
Proof. apply fresh_states_get_from. reflexivity. Qed.

Lemma fresh_states_lookup_from (urls : list pystr) (m : gmap pystr (option bool)) (u : pystr) :
  m !! u = Some None \/ In u urls ->
  fold_left (fun m url => <[url := None]> m) urls m !! u = Some None.
Proof.
  revert m. induction urls as [|x urls IH]; intros m H; simpl.
  - destruct H as [H|[]]. exact H.
  - apply IH. destruct (decide (x = u)) as [->|Hne].
    + left. apply lookup_insert_eq.
    + destruct H as [H|[H|H]]; [|congruence|right; exact H].
      left. rewrite lookup_insert_ne by exact Hne. exact H.
Qed.

(** A fresh task has an entry for each of its URLs, holding [None]. *)
Lemma fresh_states_lookup (urls : list pystr) (u : pystr) :
  In u urls -> fresh_states urls !! u = Some None.
Proof. intros H. apply fresh_states_lookup_from. right. exact H. Qed.

Lemma fresh_states_lookup_other (urls : list pystr) (u : pystr) :
  ~ In u urls -> fresh_states urls !! u = None.
Proof.
  intros H. apply not_elem_of_dom. rewrite fresh_states_dom, elem_of_list_to_set.
  rewrite list_elem_of_In. exact H.
Qed.

Lemma count_found_app {F : Type} (u : pystr) (l1 l2 : list (sent F)) :
  count_found u (l1 ++ l2) = (count_found u l1 + count_found u l2)%nat.
Proof. unfold count_found. rewrite List.filter_app, length_app. reflexivity. Qed.

Lemma str_eqb_eq (a b : pystr) : str_eqb a b = true <-> a = b.
Proof. unfold str_eqb. apply bool_decide_eq_true. Qed.

Lemma str_eqb_refl (a : pystr) : str_eqb a a = true.
Proof. apply str_eqb_eq. reflexivity. Qed.

Lemma str_eqb_neq (a b : pystr) : a <> b -> str_eqb a b = false.
Proof. intros H. unfold str_eqb. apply bool_decide_eq_false. exact H. Qed.

Lemma count_found_one {F : Type} (args : Args F) (chat_id x u : pystr) :
  count_found u [found_msg args chat_id x] = if str_eqb x u then 1%nat else 0%nat.
Proof.
  unfold count_found, is_found_for. simpl. destruct (str_eqb x u); reflexivity.
Qed.

Section Duplicates.
Context {U : Unicodedata} {F : Type} {PF : PyFloat F}.
Variable World : Type.
Variable requests_get : pystr -> F -> World -> (exception + Response) * World.
Variable codec_decode : pystr -> list N -> pystr.
Variable args : Args F.

(** In a sweep that finds [u] present at each of its checks, at most one
    notification is sent for [u], and none if it was stored as present. *)
Lemma sweep_count_found (chat_id u : pystr) (urls : list pystr)
    (states states' : gmap pystr (option bool)) (s s' : Sys World) (l : list (pystr * bool)) :
  sweep World requests_get codec_decode args chat_id urls states s = Ok states' s' ->
  console s' = console s ++ l ->
  (forall b, In (u, b) l -> b = true) ->
  (count_found u (outbox s') <=
   count_found u (outbox s) + (if is_not_True (states_get states u) then 1 else 0))%nat.
Proof.
  revert states s l. induction urls as [|x urls IH]; intros states s l.
  - intros [= <- <-] _ _. lia.
  - rewrite sweep_cons.
    destruct (check_url _ _ _ _ _ _ states s) as [st1 s1|] eqn:Hc; [|discriminate].
    intros Hs Hl Hu. apply check_url_ok in Hc as (e & -> & Hcon & Hout).
    destruct (sweep_console _ _ _ _ _ _ _ _ _ _ Hs) as (l1 & Hl1 & _).
    assert (Hl' : l = (x, e) :: l1).
    { rewrite Hl1, Hcon, <- app_assoc in Hl. apply app_inv_head in Hl. symmetry. exact Hl. }
    subst l.
    specialize (IH _ _ _ Hs Hl1 (fun b Hb => Hu b (or_intror Hb))).
    rewrite Hout, count_found_app in IH.
    destruct (decide (x = u)) as [->|Hne].
    + assert (e = true) as -> by (apply Hu; left; reflexivity).
      assert (Hst : states_get (<[u := Some true]> states) u = Some true)
        by (unfold states_get; rewrite lookup_insert_eq; reflexivity).
      rewrite Hst in IH. simpl in IH.
      unfold should_notify in *. simpl andb in *.
      destruct (is_not_True (states_get states u)); simpl in *.
      * destruct (truthy (args_tg_token args) && truthy chat_id); simpl in *;
          rewrite ?count_found_one, ?str_eqb_refl in IH;
          change (count_found u []) with 0%nat in IH; lia.
      * change (count_found u []) with 0%nat in IH. lia.
    + assert (Hsame : states_get (<[x := Some e]> states) u = states_get states u)
        by (unfold states_get; rewrite lookup_insert_ne by exact Hne; reflexivity).
      rewrite Hsame in IH.
      assert (Hnone : count_found u
                (if should_notify e (states_get states x)
                    && truthy (args_tg_token args) && truthy chat_id
                 then [found_msg args chat_id x] else []) = 0%nat).
      { destruct (_ && _ && _); [|reflexivity].
        rewrite count_found_one, (str_eqb_neq x u Hne). reflexivity. }
      rewrite Hnone in *. lia.
Qed.

End Duplicates.

(** C10: the states of a task made by a start-watch command have exactly
    the listed URLs as keys, one entry for a URL listed several times; and
    a sweep that finds a URL present at each of its checks sends at most
    one notification for it, however often the URL is listed. *)
Theorem C10_duplicate_url_one_entry_one_notification :
  (forall (F : Type) (PF : PyFloat F) (urls : list pystr) (interval : F),
     dom (task_states (new_task urls interval)) = (list_to_set urls : gset pystr)) /\
  (forall (U : Unicodedata) (F World : Type)
     (requests_get : pystr -> F -> World -> (exception + Response) * World)
     (codec_decode : pystr -> list N -> pystr) (args : Args F)
     (chat_id u : pystr) (urls : list pystr)
     (states states' : gmap pystr (option bool)) (s s' : Sys World)
     (l : list (pystr * bool)),
     sweep World requests_get codec_decode args chat_id urls states s = Ok states' s' ->
     console s' = console s ++ l ->
     (forall b, In (u, b) l -> b = true) ->
     (count_found u (outbox s') <= count_found u (outbox s) + 1)%nat).
Proof.
  split.
  - intros F PF urls interval. apply fresh_states_dom.
  - intros U F World requests_get codec_decode args chat_id u urls states states' s s' l
      Hs Hl Hu.
    pose proof (sweep_count_found World requests_get codec_decode args chat_id u urls
                  states states' s s' l Hs Hl Hu) as H.
    destruct (is_not_True (states_get states u)); lia.
Qed.

Lemma C10_duplicate_url_one_entry_one_notification_witness :
  let u := lit "https://a.test" in
  let s := Sim.start 100 [(3, Sim.page "Register now"); (3, Sim.page "register NOW")]%Q in
  exists states' s',
    sweep (U := ucd_rows) Sim.World Sim.requests_get Sim.codec_decode Sim.args
      (lit "42") [u; u] (fresh_states [u; u]) s = Ok states' s' /\
    console s' = console s ++ [(u, true); (u, true)] /\
    (count_found u (outbox s') <= count_found u (outbox s) + 1)%nat.
Proof.
  cbv zeta. eexists _, _.
  split; [vm_compute; reflexivity|]. split; [vm_compute; reflexivity|].
  eapply (proj2 C10_duplicate_url_one_entry_one_notification ucd_rows Q Sim.World
           Sim.requests_get Sim.codec_decode Sim.args (lit "42") (lit "https://a.test")
           [lit "https://a.test"; lit "https://a.test"]
           (fresh_states [lit "https://a.test"; lit "https://a.test"]) _
           (Sim.start 100 [(3, Sim.page "Register now"); (3, Sim.page "register NOW")]%Q) _
           [(lit "https://a.test", true); (lit "https://a.test", true)]).
  - vm_compute. reflexivity.
  - vm_compute. reflexivity.
  - intros b [H | [H | []]]; injection H as <-; reflexivity.
Defined.

(** ** The Command Interpreter *)

Lemma last_cons_default {A : Type} (a d : A) (l : list A) :
  List.last (a :: l) d = List.last l a.
Proof.
  revert a d. induction l as [|b l IH]; intros a d; [reflexivity|].
  change (List.last (a :: b :: l) d) with (List.last (b :: l) d).
  rewrite (IH b d), (IH b a). reflexivity.
Qed.

Section Commands.
Context {U : Unicodedata} {F : Type} {PF : PyFloat F}.
Variable World : Type.
Variable args : Args F.

Lemma scan_from (cmd_args urls0 : list pystr) (interval0 : F) :
  fold_left scan_arg cmd_args (urls0, interval0)
  = (urls0 ++ List.filter is_url cmd_args,
     List.last (valid_intervals cmd_args) interval0).
Proof.
  revert urls0 interval0.
  induction cmd_args as [|arg cmd_args IH]; intros urls0 interval0.
  - simpl. rewrite app_nil_r. reflexivity.
  - cbn [fold_left]. unfold scan_arg at 2. unfold valid_intervals. cbn [omap list_omap List.filter].
    destruct (is_url arg).
    + rewrite IH, <- app_assoc. reflexivity.
    + destruct (float_of_str arg) as [p|]; [|apply IH].
      destruct (f_ge p (float_lit 1)); [|apply IH].
      rewrite IH. cbn [mbind option_bind]. rewrite last_cons_default. reflexivity.
Qed.

(** The URLs are the URL tokens in order; the interval is the last interval
    token, or the default when there is none. *)
Lemma scan_watch_args_eq (cmd_args : list pystr) :
  scan_watch_args args cmd_args
  = (List.filter is_url cmd_args,
     List.last (valid_intervals cmd_args) (args_interval args)).
Proof. unfold scan_watch_args. apply scan_from. Qed.

(** What a start-watch command with at least one argument does. *)
Lemma handle_command_watch (token chat_id text cmd : pystr) (cmd_args : list pystr)
    (tasks : list (pystr * Task F)) (s : Sys World) :
  parse_command text = (cmd, cmd_args) ->
  is_cmd cmd "/watch" "watch" = true ->
  cmd_args <> [] ->
  let urls := List.filter is_url cmd_args in
  let interval := List.last (valid_intervals cmd_args) (args_interval args) in
  handle_command World args token chat_id text tasks s =
  match urls with
  | [] => Ok tasks (after_send token chat_id TxtNeedUrl s)
  | _ :: _ =>
      Ok (dict_set tasks chat_id (new_task urls interval))
         (after_send token chat_id (TxtStarted urls interval (args_find args)) s)
  end.
Proof.
  intros Hparse Hcmd Hargs. cbv zeta. unfold handle_command.
  rewrite Hparse, Hcmd, scan_watch_args_eq.
  destruct cmd_args as [|a cmd_args]; [congruence|]. cbn [length Nat.leb andb].
  destruct (List.filter is_url (a :: cmd_args)); reflexivity.
Qed.

End Commands.

Lemma dict_get_set_eq {V : Type} (d : list (pystr * V)) (k : pystr) (v : V) :
  dict_get (dict_set d k v) k = Some v.
Proof.
  induction d as [|[k' v'] d IH]; simpl.
  - rewrite str_eqb_refl. reflexivity.
  - destruct (str_eqb k' k) eqn:E; simpl; rewrite E; [reflexivity | exact IH].
Qed.

Lemma dict_get_set_ne {V : Type} (d : list (pystr * V)) (k c : pystr) (v : V) :
  c <> k -> dict_get (dict_set d k v) c = dict_get d c.
Proof.
  intros Hne. induction d as [|[k' v'] d IH]; simpl.
  - rewrite str_eqb_neq by congruence. reflexivity.
  - destruct (str_eqb k' k) eqn:E; simpl.
    + apply str_eqb_eq in E as ->. rewrite str_eqb_neq by congruence. reflexivity.
    + rewrite IH. reflexivity.
Qed.

Lemma dict_set_keys {V : Type} (d : list (pystr * V)) (k : pystr) (v old : V) :
  dict_get d k = Some old -> List.map fst (dict_set d k v) = List.map fst d.
Proof.
  induction d as [|[k' v'] d IH]; simpl; [discriminate|].
  destruct (str_eqb k' k); simpl; [reflexivity|].
  intros H. rewrite IH by exact H. reflexivity.
Qed.

(** C6: for a command whose lower-cased first token is a start-watch verb
    and that has at least one argument, the URLs are the tokens with an
    http:// or https:// prefix, in order and with duplicates; the interval
    is the last of the other tokens that parses as a number at least 1.0,
    or the default; the remaining tokens have no effect; without a URL
    token no task is stored (the task table is unchanged), otherwise the
    task is stored under the chat id.  "watch https://a.test https://b.test
    10" stores urls [https://a.test, https://b.test] with interval 10, and
    "watch" alone stores nothing and sends nothing. *)
Theorem C6_start_watch_parsing :
  (forall (U : Unicodedata) (F : Type) (PF : PyFloat F) (World : Type) (args : Args F)
     (token chat_id text cmd : pystr) (cmd_args : list pystr)
     (tasks : list (pystr * Task F)) (s : Sys World),
     parse_command text = (cmd, cmd_args) ->
     is_cmd cmd "/watch" "watch" = true ->
     cmd_args <> [] ->
     let urls := List.filter is_url cmd_args in
     let interval := List.last (valid_intervals cmd_args) (args_interval args) in
     handle_command World args token chat_id text tasks s =
     match urls with
     | [] => Ok tasks (after_send token chat_id TxtNeedUrl s)
     | _ :: _ =>
         Ok (dict_set tasks chat_id (new_task urls interval))
            (after_send token chat_id (TxtStarted urls interval (args_find args)) s)
     end) /\
  (forall (U : Unicodedata) (text : pystr),
     parse_command text =
     match split (strip text) with
     | [] => ([], [])
     | verb :: cmd_args => (str_lower verb, cmd_args)
     end) /\
  (let a := lit "https://a.test" in
   let b := lit "https://b.test" in
   let run (text : string) :=
     handle_command (U := ucd_rows) (PF := Q_float) Sim.World Sim.args
       (lit "TOKEN") (lit "42") (lit text) [] (Sim.start 100 []) in
   run "watch https://a.test https://b.test 10"%string
     = Ok [(lit "42", {| task_urls := [a; b]; task_interval := 10%Q;
                         task_states := fresh_states [a; b]; task_next_at := 0%Q |})]
          {| world := world (Sim.start 100 []);
             outbox := [{| sent_token := lit "TOKEN"; sent_chat := lit "42";
                           sent_text := TxtStarted [a; b] 10%Q (lit "register now") |}];
             console := [] |} /\
   run "WATCH https://a.test 0.5 soon https://a.test 7 2.5 x9"%string
     = Ok [(lit "42", {| task_urls := [a; a]; task_interval := (5 # 2)%Q;
                         task_states := fresh_states [a; a]; task_next_at := 0%Q |})]
          {| world := world (Sim.start 100 []);
             outbox := [{| sent_token := lit "TOKEN"; sent_chat := lit "42";
                           sent_text := TxtStarted [a; a] (5 # 2)%Q (lit "register now") |}];
             console := [] |} /\
   run "watch"%string = Ok [] (Sim.start 100 []) /\
   run "watch 10 soon"%string
     = Ok [] {| world := world (Sim.start 100 []);
                outbox := [{| sent_token := lit "TOKEN"; sent_chat := lit "42";
                              sent_text := TxtNeedUrl |}];
                console := [] |}).
Proof.
  split; [|split].
  - intros U F PF World args token chat_id text cmd cmd_args tasks s Hparse Hcmd Hargs.
    exact (handle_command_watch World args token chat_id text cmd cmd_args tasks s
             Hparse Hcmd Hargs).
  - intros U text. reflexivity.
  - cbv zeta. repeat split; vm_compute; reflexivity.
Qed.

Lemma C6_start_watch_parsing_witness :
  let urls := [lit "http://a.test"; lit "https://b.test"] in
  handle_command (U := ucd_rows) (PF := Q_float) Sim.World Sim.args
    (lit "TOKEN") (lit "42") (lit "/Watch http://a.test 3 https://b.test")
    [] (Sim.start 100 [])
  = Ok [(lit "42", new_task (PF := Q_float) urls 3%Q)]
       (after_send (lit "TOKEN") (lit "42") (TxtStarted urls 3%Q (lit "register now"))
          (Sim.start 100 [])).
Proof.
  exact (proj1 C6_start_watch_parsing ucd_rows Q Q_float Sim.World Sim.args
           (lit "TOKEN") (lit "42") (lit "/Watch http://a.test 3 https://b.test")
           (lit "/watch") [lit "http://a.test"; lit "3"; lit "https://b.test"]
           [] (Sim.start 100 []) eq_refl eq_refl ltac:(discriminate)).
Defined.

(** ** Replacing a task *)

(** C7: a start-watch command with at least one URL, for a chat id that
    already has a task, puts in its place in the table a task whose URL
    list and interval are those of the command, whose states dictionary
    has an entry holding [None] (unknown) for each URL of the command and
    no other entry, and whose next due time is 0; the old task contributes
    nothing, and the tasks of the other chat ids stay as they were. *)
Theorem C7_start_watch_replaces_task
    (U : Unicodedata) (F : Type) (PF : PyFloat F) (World : Type) (args : Args F)
    (token chat_id text cmd : pystr) (cmd_args : list pystr)
    (tasks : list (pystr * Task F)) (old : Task F) (s : Sys World) :
  parse_command text = (cmd, cmd_args) ->
  is_cmd cmd "/watch" "watch" = true ->
  List.filter is_url cmd_args <> [] ->
  dict_get tasks chat_id = Some old ->
  let urls := List.filter is_url cmd_args in
  let interval := List.last (valid_intervals cmd_args) (args_interval args) in
  exists tasks' s',
    handle_command World args token chat_id text tasks s = Ok tasks' s' /\
    dict_get tasks' chat_id
      = Some {| task_urls := urls; task_interval := interval;
                task_states := fresh_states urls; task_next_at := float_lit 0 |} /\
    (forall url, In url urls -> fresh_states urls !! url = Some None) /\
    (forall url, ~ In url urls -> fresh_states urls !! url = None) /\
    (forall url, states_get (fresh_states urls) url = None) /\
    List.map fst tasks' = List.map fst tasks /\
    (forall other, other <> chat_id -> dict_get tasks' other = dict_get tasks other).
Proof.
  intros Hparse Hcmd Hurls Hold. cbv zeta.
  assert (Hargs : cmd_args <> []) by (intros ->; apply Hurls; reflexivity).
  rewrite (handle_command_watch World args token chat_id text cmd cmd_args tasks s
             Hparse Hcmd Hargs).
  destruct (List.filter is_url cmd_args) as [|u urls] eqn:Hf; [congruence|].
  eexists _, _. split; [reflexivity|]. split; [apply dict_get_set_eq|].
  split; [intros url; apply fresh_states_lookup|].
  split; [intros url; apply fresh_states_lookup_other|].
  split; [intros url; apply fresh_states_get|].
  split; [eapply dict_set_keys, Hold|].
  intros other Hne. apply dict_get_set_ne, Hne.
Qed.

Lemma C7_start_watch_replaces_task_witness :
  let a := lit "https://a.test" in
  let b := lit "https://b.test" in
  let old := {| task_urls := [a]; task_interval := 30%Q;
                task_states := <[a := Some true]> ∅; task_next_at := 130%Q |} in
  let other := new_task (PF := Q_float) [b] 5%Q in
  let tasks := [(lit "7", other); (lit "42", old)] in
  exists tasks' s',
    handle_command (U := ucd_rows) (PF := Q_float) Sim.World Sim.args
      (lit "TOKEN") (lit "42") (lit "/watch https://a.test https://b.test")
      tasks (Sim.start 100 []) = Ok tasks' s' /\
    dict_get tasks' (lit "42")
      = Some {| task_urls := [a; b]; task_interval := 5%Q;
                task_states := fresh_states [a; b]; task_next_at := 0%Q |} /\
    fresh_states [a; b] !! a = Some None /\ fresh_states [a; b] !! b = Some None /\
    fresh_states [a; b] !! lit "https://c.test" = None /\
    states_get (fresh_states [a; b]) a = None /\
    List.map fst tasks' = [lit "7"; lit "42"] /\
    dict_get tasks' (lit "7") = Some other.
Proof.
  cbv zeta.
  destruct (C7_start_watch_replaces_task ucd_rows Q Q_float Sim.World Sim.args
              (lit "TOKEN") (lit "42") (lit "/watch https://a.test https://b.test")
              (lit "/watch") [lit "https://a.test"; lit "https://b.test"]
              [(lit "7", new_task (PF := Q_float) [lit "https://b.test"] 5%Q);
               (lit "42", {| task_urls := [lit "https://a.test"]; task_interval := 30%Q;
                             task_states := <[lit "https://a.test" := Some true]> ∅;
                             task_next_at := 130%Q |})]
              {| task_urls := [lit "https://a.test"]; task_interval := 30%Q;
                 task_states := <[lit "https://a.test" := Some true]> ∅;
                 task_next_at := 130%Q |}
              (Sim.start 100 []) eq_refl eq_refl ltac:(discriminate) eq_refl)
    as (tasks' & s' & Hrun & Hget & Hin & Hout & Hfresh & Hkeys & Hother).
  exists tasks', s'. split; [exact Hrun|]. split; [exact Hget|].
  split; [apply Hin; left; reflexivity|].
  split; [apply Hin; right; left; reflexivity|].
  split; [apply Hout; intros [H|[H|[]]]; discriminate|].
  split; [apply Hfresh|]. split; [exact Hkeys|].
  rewrite Hother by discriminate. reflexivity.
Defined.

(** ** Start of bot mode *)

(** C8, counterexample: with neither the flag nor the environment variable
    the token is the literal written in the source, which is not empty, and
    bot mode starts: it greets and enters the loop with an empty table. *)
Lemma C8_counterexample :
  let token := resolve_tg_token None None in
  token = DEFAULT_TG_TOKEN /\ truthy token = true /\
  bot_start Sim.World (Sim.args_with_token token) (Sim.start 100 [])
  = Ok {| tasks := []; next_offset := None |}
       (after_send token (lit "42") TxtBotRunning (Sim.start 100 [])).
Proof. cbv zeta. repeat split. Qed.

(** C8, amended: the bot-mode token is the value of --tg-token, else of the
    environment variable TELEGRAM_BOT_TOKEN, else a non-empty literal of the
    source; bot mode with an empty token ends at once with SystemExit and
    the token-required diagnostic, before anything is sent, and with a
    non-empty token it sends the greeting and starts with an empty table. *)
Theorem C8_token_resolution_and_startup_check :
  (forall flag env : option pystr,
     resolve_tg_token flag env =
     match flag, env with
     | Some t, _ => t
     | None, Some t => t
     | None, None => DEFAULT_TG_TOKEN
     end) /\
  truthy DEFAULT_TG_TOKEN = true /\
  (forall (F World : Type) (args : Args F) (s : Sys World),
     truthy (args_tg_token args) = false ->
     bot_start World args s = Raise (SystemExit TokenRequired) s) /\
  (forall (F World : Type) (args : Args F) (s : Sys World),
     truthy (args_tg_token args) = true ->
     bot_start World args s
     = Ok {| tasks := []; next_offset := None |}
          (after_send (args_tg_token args) (args_tg_chat_id args) TxtBotRunning s)).
Proof.
  split; [|split; [|split]].
  - intros [t|] [e|]; reflexivity.
  - reflexivity.
  - intros F World args s H. unfold bot_start. rewrite H. reflexivity.
  - intros F World args s H. unfold bot_start. rewrite H. reflexivity.
Qed.

Lemma C8_token_resolution_and_startup_check_witness :
  bot_start Sim.World (Sim.args_with_token (resolve_tg_token (Some []) None))
    (Sim.start 100 [])
  = Raise (SystemExit TokenRequired) (Sim.start 100 []) /\
  bot_start Sim.World (Sim.args_with_token (resolve_tg_token None (Some (lit "T"))))
    (Sim.start 100 [])
  = Ok {| tasks := []; next_offset := None |}
       (after_send (lit "T") (lit "42") TxtBotRunning (Sim.start 100 [])).
Proof.
  destruct C8_token_resolution_and_startup_check as (_ & _ & Hempty & Hset).
  split.
  - apply (Hempty Q Sim.World (Sim.args_with_token (resolve_tg_token (Some []) None))).
    reflexivity.
  - apply (Hset Q Sim.World
             (Sim.args_with_token (resolve_tg_token None (Some (lit "T"))))).
    reflexivity.
Defined.

(** ** Choice of the encoding *)

(** C9, counterexample: for a response declared as ISO-8859-1 whose
    detected encoding is windows-1256, the code decodes as UTF-8 without
    using the detected encoding; and when no encoding is declared and
    detection answers ISO-8859-1, the code decodes as UTF-8 although
    detection did not fail. *)
Lemma C9_counterexample :
  let declared_default :=
    {| status_code := 200; encoding := Some (lit "ISO-8859-1");
       apparent_encoding := Some (lit "windows-1256"); content := [] |} in
  let detected_latin :=
    {| status_code := 200; encoding := None;
       apparent_encoding := Some (lit "ISO-8859-1"); content := [] |} in
  select_encoding (U := ucd_rows) declared_default = lit "utf-8" /\
  spec_select_encoding (U := ucd_rows) declared_default = lit "windows-1256" /\
  select_encoding (U := ucd_rows) declared_default
    <> spec_select_encoding (U := ucd_rows) declared_default /\
  select_encoding (U := ucd_rows) detected_latin = lit "utf-8" /\
  spec_select_encoding (U := ucd_rows) detected_latin = lit "ISO-8859-1".
Proof.
  cbv zeta. split; [vm_compute; reflexivity|]. split; [vm_compute; reflexivity|].
  split; [vm_compute; discriminate|]. split; vm_compute; reflexivity.
Qed.

(** C9, amended: the server-declared encoding is used unless it is absent
    or is ISO-8859-1 (in any letter case); a declared ISO-8859-1 gives
    UTF-8, without detection; when no encoding is declared the
    content-based detection is used, unless it gives nothing or
    ISO-8859-1, and then UTF-8 is used. *)
Theorem C9_encoding_choice (U : Unicodedata) (resp : Response) :
  let latin e := str_eqb (str_lower e) (lit "iso-8859-1") in
  (forall e, encoding resp = Some e -> truthy e = true ->
     select_encoding resp = if latin e then lit "utf-8" else e) /\
  (truthy_opt (encoding resp) = false ->
   forall a, apparent_encoding resp = Some a -> truthy a = true ->
     select_encoding resp = if latin a then lit "utf-8" else a) /\
  (truthy_opt (encoding resp) = false ->
   truthy_opt (apparent_encoding resp) = false ->
   select_encoding resp = lit "utf-8").
Proof.
  cbv zeta. unfold select_encoding. split; [|split].
  - intros e He Ht. rewrite He. simpl. rewrite Ht. simpl. rewrite Ht. reflexivity.
  - intros Hd a Ha Ht. rewrite Hd, Ha. simpl. rewrite Ht. reflexivity.
  - intros Hd Ha. rewrite Hd. simpl.
    destruct (apparent_encoding resp) as [a|]; [|reflexivity].
    simpl in Ha. rewrite Ha. reflexivity.
Qed.

Lemma C9_encoding_choice_witness :
  select_encoding (U := ucd_rows)
    {| status_code := 200; encoding := Some (lit "windows-1256");
       apparent_encoding := Some (lit "utf-8"); content := [] |} = lit "windows-1256" /\
  select_encoding (U := ucd_rows)
    {| status_code := 200; encoding := Some [];
       apparent_encoding := Some (lit "Windows-1256"); content := [] |} = lit "Windows-1256" /\
  select_encoding (U := ucd_rows)
    {| status_code := 200; encoding := None;
       apparent_encoding := None; content := [] |} = lit "utf-8".
Proof.
  split; [|split].
  - apply (proj1 (C9_encoding_choice ucd_rows
             {| status_code := 200; encoding := Some (lit "windows-1256");
                apparent_encoding := Some (lit "utf-8"); content := [] |})
             (lit "windows-1256") eq_refl eq_refl).
  - apply (proj1 (proj2 (C9_encoding_choice ucd_rows
             {| status_code := 200; encoding := Some [];
                apparent_encoding := Some (lit "Windows-1256"); content := [] |}))
             eq_refl (lit "Windows-1256") eq_refl eq_refl).
  - apply (proj2 (proj2 (C9_encoding_choice ucd_rows
             {| status_code := 200; encoding := None;
                apparent_encoding := None; content := [] |}))
             eq_refl eq_refl).
Defined.

(** * Further properties *)

(** ** Sweeps *)

Section SweepFacts.
Context {U : Unicodedata} {F : Type} {PF : PyFloat F}.
Variable World : Type.
Variable requests_get : pystr -> F -> World -> (exception + Response) * World.
Variable codec_decode : pystr -> list N -> pystr.
Variable args : Args F.

Local Abbreviation run_sweep := (sweep World requests_get codec_decode args).

Lemma sweep_step (chat_id x : pystr) (urls : list pystr)
    (states states' : gmap pystr (option bool)) (s s' : Sys World) :
  run_sweep chat_id (x :: urls) states s = Ok states' s' ->
  exists (e : bool) (s1 : Sys World),
    run_sweep chat_id urls (<[x := Some e]> states) s1 = Ok states' s' /\
    console s1 = console s ++ [(x, e)] /\
    outbox s1 = outbox s ++
      (if should_notify e (states_get states x)
          && truthy (args_tg_token args) && truthy chat_id
       then [found_msg args chat_id x] else []).
Proof.
  rewrite sweep_cons.
  destruct (check_url _ _ _ _ _ _ states s) as [st1 s1|] eqn:Hc; [|discriminate].
  intros Hs. apply check_url_ok in Hc as (e & -> & Hcon & Hout).
  exists e, s1. auto.
Qed.

Lemma sweep_last_result (chat_id : pystr) (urls : list pystr)
    (states states' : gmap pystr (option bool)) (s s' : Sys World)
    (l : list (pystr * bool)) :
  run_sweep chat_id urls states s = Ok states' s' ->
  console s' = console s ++ l ->
  forall u b l1 l2,
    l = l1 ++ (u, b) :: l2 -> (forall b', ~ In (u, b') l2) ->
    states_get states' u = Some b.
Proof.
  revert states s l. induction urls as [|x urls IH]; intros states s l Hs Hl u b l1 l2 Hsplit Hlast.
  - injection Hs as <- <-. rewrite <- (app_nil_r (console s)) in Hl at 1.
    apply app_inv_head in Hl. rewrite Hsplit in Hl. destruct l1; discriminate.
  - apply sweep_step in Hs as (e & s1 & Hs & Hcon & _).
    destruct (sweep_console _ _ _ _ _ _ _ _ _ _ Hs) as (l' & Hl' & Hm).
    assert (Hl0 : l = (x, e) :: l').
    { rewrite Hl', Hcon, <- app_assoc in Hl. apply app_inv_head in Hl. symmetry. exact Hl. }
    rewrite Hl0 in Hsplit. clear Hl0 Hl. destruct l1 as [|p l1].
    + injection Hsplit as <- <- <-.
      assert (Hn : ~ In x urls).
      { rewrite <- Hm. intros Hin. apply in_map_iff in Hin as [[x' b'] [Hx Hin]].
        simpl in Hx. subst x'. exact (Hlast b' Hin). }
      unfold states_get. rewrite (sweep_states_other _ _ _ _ _ _ _ _ _ _ _ Hs Hn).
      rewrite lookup_insert_eq. reflexivity.
    + injection Hsplit as <- Hsplit. exact (IH _ _ _ Hs Hl' u b l1 l2 Hsplit Hlast).
Qed.

Lemma sweep_states_listed (chat_id : pystr) (urls : list pystr)
    (states states' : gmap pystr (option bool)) (s s' : Sys World) (u : pystr) :
  run_sweep chat_id urls states s = Ok states' s' ->
  In u urls -> exists b : bool, states_get states' u = Some b.
Proof.
  revert states s. induction urls as [|x urls IH]; intros states s Hs Hin; [contradiction|].
  apply sweep_step in Hs as (e & s1 & Hs & _).
  destruct (decide (u ∈ urls)) as [Hu|Hu]; rewrite list_elem_of_In in Hu.
  - exact (IH _ _ Hs Hu).
  - destruct Hin as [->|Hin]; [|contradiction].
    exists e. unfold states_get.
    rewrite (sweep_states_other _ _ _ _ _ _ _ _ _ _ _ Hs Hu), lookup_insert_eq. reflexivity.
Qed.

Lemma sweep_outbox (chat_id : pystr) (urls : list pystr)
    (states states' : gmap pystr (option bool)) (s s' : Sys World)
    (l : list (pystr * bool)) :
  run_sweep chat_id urls states s = Ok states' s' ->
  console s' = console s ++ l ->
  exists new,
    outbox s' = outbox s ++ new /\
    Forall (fun m => exists u, In (u, true) l /\ m = found_msg args chat_id u) new /\
    (length new <= length (List.filter snd l))%nat.
Proof.
  revert states s l. induction urls as [|x urls IH]; intros states s l Hs Hl.
  - injection Hs as <- <-. exists []. rewrite app_nil_r. repeat split; [constructor | simpl; lia].
  - apply sweep_step in Hs as (e & s1 & Hs & Hcon & Hout).
    destruct (sweep_console _ _ _ _ _ _ _ _ _ _ Hs) as (l' & Hl' & _).
    assert (l = (x, e) :: l').
    { rewrite Hl', Hcon, <- app_assoc in Hl. apply app_inv_head in Hl. symmetry. exact Hl. }
    subst l. destruct (IH _ _ _ Hs Hl') as (new & Hnew & Hall & Hlen).
    rewrite Hout, <- app_assoc in Hnew. eexists. split; [exact Hnew|].
    unfold should_notify. destruct e; simpl.
    + split.
      * apply Forall_app. split.
        -- destruct (_ && _ && _); constructor; [|constructor].
           exists x. split; [left; reflexivity | reflexivity].
        -- eapply Forall_impl; [exact Hall|].
           intros m (u & Hin & ->). exists u. split; [right; exact Hin | reflexivity].
      * rewrite length_app. destruct (_ && _ && _); simpl; lia.
    + split; [|exact Hlen].
      eapply Forall_impl; [exact Hall|].
      intros m (u & Hin & ->). exists u. split; [right; exact Hin | reflexivity].
Qed.

End SweepFacts.

(** X1: when a sweep returns, the state stored for a URL is the result of
    the last check the sweep made of it, every listed URL has a known
    state, and the states of URLs that are not listed are as before. *)
Theorem X1_sweep_stores_last_result
    (U : Unicodedata) (F World : Type)
    (requests_get : pystr -> F -> World -> (exception + Response) * World)
    (codec_decode : pystr -> list N -> pystr) (args : Args F)
    (chat_id : pystr) (urls : list pystr)
    (states states' : gmap pystr (option bool)) (s s' : Sys World)
    (l : list (pystr * bool)) :
  sweep World requests_get codec_decode args chat_id urls states s = Ok states' s' ->
  console s' = console s ++ l ->
  (forall u b l1 l2,
     l = l1 ++ (u, b) :: l2 -> (forall b', ~ In (u, b') l2) ->
     states_get states' u = Some b) /\
  (forall u, In u urls -> exists b : bool, states_get states' u = Some b) /\
  (forall u, ~ In u urls -> states_get states' u = states_get states u).
Proof.
  intros Hs Hl. split; [|split].
  - exact (sweep_last_result World requests_get codec_decode args chat_id urls
             states states' s s' l Hs Hl).
  - intros u. apply (sweep_states_listed _ _ _ _ _ _ _ _ _ _ _ Hs).
  - intros u Hu. unfold states_get.
    rewrite (sweep_states_other _ _ _ _ _ _ _ _ _ _ _ Hs Hu). reflexivity.
Qed.

Lemma X1_sweep_stores_last_result_witness :
  let a := lit "https://a.test" in
  let b := lit "https://b.test" in
  let s := Sim.start 100 [(1, Sim.page "register now"); (1, None); (1, Sim.page "closed")]%Q in
  exists states' s',
    sweep (U := ucd_rows) Sim.World Sim.requests_get Sim.codec_decode Sim.args
      (lit "42") [a; b; a] (fresh_states [a; b]) s = Ok states' s' /\
    states_get states' a = Some false /\
    (exists st : bool, states_get states' b = Some st).
Proof.
  cbv zeta. eexists _, _. split; [vm_compute; reflexivity|].
  pose proof (X1_sweep_stores_last_result ucd_rows Q Sim.World Sim.requests_get
                Sim.codec_decode Sim.args (lit "42")
                [lit "https://a.test"; lit "https://b.test"; lit "https://a.test"]
                (fresh_states [lit "https://a.test"; lit "https://b.test"]) _
                (Sim.start 100 [(1, Sim.page "register now"); (1, None);
                                (1, Sim.page "closed")]%Q) _
                [(lit "https://a.test", true); (lit "https://b.test", false);
                 (lit "https://a.test", false)]
                eq_refl eq_refl) as (Hlast & Hknown & _).
  split.
  - apply (Hlast (lit "https://a.test") false
             [(lit "https://a.test", true); (lit "https://b.test", false)] []);
      [reflexivity | intros b' []].
  - apply Hknown. right. left. reflexivity.
Defined.

(** X2: whatever a sweep sends is a found-notification, addressed to the
    chat of the task, for a URL that a check of this sweep found present;
    it sends no more messages than it made such checks. *)
Theorem X2_sweep_sends_only_found_notifications
    (U : Unicodedata) (F World : Type)
    (requests_get : pystr -> F -> World -> (exception + Response) * World)
    (codec_decode : pystr -> list N -> pystr) (args : Args F)
    (chat_id : pystr) (urls : list pystr)
    (states states' : gmap pystr (option bool)) (s s' : Sys World)
    (l : list (pystr * bool)) :
  sweep World requests_get codec_decode args chat_id urls states s = Ok states' s' ->
  console s' = console s ++ l ->
  exists new,
    outbox s' = outbox s ++ new /\
    Forall (fun m => exists u, In (u, true) l /\ m = found_msg args chat_id u) new /\
    (length new <= length (List.filter snd l))%nat.
Proof. apply sweep_outbox. Qed.

Lemma X2_sweep_sends_only_found_notifications_witness :
  let a := lit "https://a.test" in
  let b := lit "https://b.test" in
  let s := Sim.start 100 [(1, Sim.page "register now"); (1, Sim.page "closed")]%Q in
  exists states' s' new,
    sweep (U := ucd_rows) Sim.World Sim.requests_get Sim.codec_decode Sim.args
      (lit "42") [a; b] (fresh_states [a; b]) s = Ok states' s' /\
    outbox s' = outbox s ++ new /\ (length new <= 1)%nat.
Proof.
  cbv zeta.
  destruct (X2_sweep_sends_only_found_notifications ucd_rows Q Sim.World Sim.requests_get
              Sim.codec_decode Sim.args (lit "42")
              [lit "https://a.test"; lit "https://b.test"]
              (fresh_states [lit "https://a.test"; lit "https://b.test"]) _
              (Sim.start 100 [(1, Sim.page "register now"); (1, Sim.page "closed")]%Q) _
              [(lit "https://a.test", true); (lit "https://b.test", false)]
              eq_refl eq_refl) as (new & Hout & _ & Hlen).
  eexists _, _, new. split; [reflexivity|]. split; [exact Hout | exact Hlen].
Defined.

(** X3: a page answered with an error status (400 to 599) counts as absent
    whatever its body says: the check stores absent and sends nothing. *)
Theorem X3_error_status_is_absent
    (U : Unicodedata) (F World : Type)
    (requests_get : pystr -> F -> World -> (exception + Response) * World)
    (codec_decode : pystr -> list N -> pystr) (args : Args F)
    (chat_id url : pystr) (states : gmap pystr (option bool))
    (s : Sys World) (resp : Response) :
  fst (requests_get url (args_timeout args) (world s)) = inr resp ->
  400 <= status_code resp < 600 ->
  exists s',
    check_url World requests_get codec_decode args chat_id url states s
      = Ok (<[url := Some false]> states) s' /\
    outbox s' = outbox s /\
    console s' = console s ++ [(url, false)].
Proof.
  intros Hget Hstatus. rewrite check_url_eq, page_contains_text_eq. simpl.
  rewrite Hget. unfold raise_for_status.
  replace ((400 <=? status_code resp) && (status_code resp <? 600)) with true
    by (symmetry; apply andb_true_iff; split; [apply N.leb_le | apply N.ltb_lt]; lia).
  simpl. eexists. split; [reflexivity|]. simpl. rewrite app_nil_r. auto.
Qed.

Lemma X3_error_status_is_absent_witness :
  let u := lit "https://a.test" in
  let gone := {| status_code := 404; encoding := Some (lit "utf-8");
                 apparent_encoding := None; content := lit "Register now" |} in
  let s := Sim.start 100 [(1%Q, Some gone)] in
  exists s',
    check_url (U := ucd_rows) Sim.World Sim.requests_get Sim.codec_decode Sim.args
      (lit "42") u (fresh_states [u]) s = Ok (<[u := Some false]> (fresh_states [u])) s' /\
    outbox s' = outbox s /\
    console s' = console s ++ [(u, false)].
Proof.
  cbv zeta.
  apply (X3_error_status_is_absent ucd_rows Q Sim.World Sim.requests_get Sim.codec_decode
           Sim.args (lit "42") (lit "https://a.test") _ _
           {| status_code := 404; encoding := Some (lit "utf-8");
              apparent_encoding := None; content := lit "Register now" |}).
  - reflexivity.
  - split; [apply N.leb_le | apply N.ltb_lt]; reflexivity.
Defined.

(** X4: a tick at which no task is due fetches nothing, sends nothing and
    leaves the table as it is. *)
Theorem X4_no_task_due_no_effect
    (U : Unicodedata) (F : Type) (PF : PyFloat F) (World : Type)
    (requests_get : pystr -> F -> World -> (exception + Response) * World)
    (codec_decode : pystr -> list N -> pystr) (time_time : World -> F)
    (args : Args F) (tasks : list (pystr * Task F)) (s : Sys World) :
  Forall (fun ct => f_ge (time_time (world s)) (task_next_at (snd ct)) = false) tasks ->
  run_due_checks World requests_get codec_decode time_time args tasks s = Ok tasks s.
Proof.
  intros H. unfold run_due_checks, bind, now_.
  generalize (time_time (world s)) H. clear H. intros now H.
  induction H as [|[chat_id task] tasks Hd H IH]; [reflexivity|].
  cbn [check_tasks]. unfold bind at 1. unfold check_task. simpl in Hd. rewrite Hd.
  unfold ret at 1. unfold bind at 1. rewrite IH. reflexivity.
Qed.

Lemma X4_no_task_due_no_effect_witness :
  let task := {| task_urls := [lit "https://a.test"]; task_interval := 5%Q;
                 task_states := fresh_states [lit "https://a.test"];
                 task_next_at := 105%Q |} in
  let s := Sim.start 103 [(1, Sim.page "register now")]%Q in
  run_due_checks (U := ucd_rows) (PF := Q_float) Sim.World Sim.requests_get
    Sim.codec_decode Sim.time_time Sim.args [(lit "42", task)] s
  = Ok [(lit "42", task)] s.
Proof.
  cbv zeta.
  apply (X4_no_task_due_no_effect ucd_rows Q Q_float Sim.World Sim.requests_get
           Sim.codec_decode Sim.time_time Sim.args).
  constructor; [reflexivity | constructor].
Defined.

(** ** Commands *)

Lemma dict_get_pop_ne {V : Type} (d : list (pystr * V)) (k c : pystr) :
  c <> k -> dict_get (dict_pop d k) c = dict_get d c.
Proof.
  intros Hne. induction d as [|[k' v'] d IH]; simpl; [reflexivity|].
  destruct (str_eqb k' k) eqn:E; simpl.
  - apply str_eqb_eq in E as ->. rewrite str_eqb_neq by congruence. reflexivity.
  - rewrite IH. reflexivity.
Qed.

Lemma dict_get_None {V : Type} (d : list (pystr * V)) (k : pystr) :
  dict_get d k = None <-> ~ In k (List.map fst d).
Proof.
  induction d as [|[k' v'] d IH]; simpl.
  - split; [intros _ [] | reflexivity].
  - destruct (str_eqb k' k) eqn:E.
    + apply str_eqb_eq in E as ->. split; [discriminate | intros H; exfalso; apply H; left; reflexivity].
    + rewrite IH. split.
      * intros H [->|Hin]; [rewrite str_eqb_refl in E; discriminate | exact (H Hin)].
      * intros H Hin. apply H. right. exact Hin.
Qed.

Lemma dict_pop_keys {V : Type} (d : list (pystr * V)) (k : pystr) :
  forall c, In c (List.map fst (dict_pop d k)) -> In c (List.map fst d).
Proof.
  induction d as [|[k' v'] d IH]; simpl; [auto|].
  destruct (str_eqb k' k); simpl; intros c; [auto|].
  intros [->|Hin]; [left; reflexivity | right; apply IH, Hin].
Qed.

Lemma dict_pop_NoDup {V : Type} (d : list (pystr * V)) (k : pystr) :
  NoDup (List.map fst d) -> NoDup (List.map fst (dict_pop d k)).
Proof.
  induction d as [|[k' v'] d IH]; simpl; [auto|].
  intros Hnd. apply NoDup_cons in Hnd as [Hk Hnd].
  destruct (str_eqb k' k); simpl; [exact Hnd|].
  apply NoDup_cons. split; [|apply IH, Hnd].
  rewrite list_elem_of_In in *. intros Hin. apply Hk. eapply dict_pop_keys, Hin.
Qed.

(** With distinct keys, a popped key is gone. *)
Lemma dict_get_pop_eq {V : Type} (d : list (pystr * V)) (k : pystr) :
  NoDup (List.map fst d) -> dict_get (dict_pop d k) k = None.
Proof.
  induction d as [|[k' v'] d IH]; simpl; [reflexivity|].
  intros Hnd. apply NoDup_cons in Hnd as [Hk Hnd].
  destruct (str_eqb k' k) eqn:E; simpl.
  - apply str_eqb_eq in E as ->. apply dict_get_None. rewrite <- list_elem_of_In. exact Hk.
  - rewrite E. apply IH, Hnd.
Qed.

(** Setting a new key and popping it gives the dictionary back. *)
Lemma dict_pop_set_new {V : Type} (d : list (pystr * V)) (k : pystr) (v : V) :
  dict_get d k = None -> dict_pop (dict_set d k v) k = d.
Proof.
  induction d as [|[k' v'] d IH]; simpl.
  - rewrite str_eqb_refl. reflexivity.
  - destruct (str_eqb k' k) eqn:E; [discriminate|].
    intros H. simpl. rewrite E, IH by exact H. reflexivity.
Qed.

Lemma is_cmd_eq (cmd : pystr) (a b : string) :
  is_cmd cmd a b = true <-> cmd = lit a \/ cmd = lit b.
Proof. unfold is_cmd. rewrite orb_true_iff, !str_eqb_eq. reflexivity. Qed.

Section CommandFacts.
Context {U : Unicodedata} {F : Type} {PF : PyFloat F}.
Variable World : Type.
Variable args : Args F.

(** What a stop command does. *)
Lemma handle_command_stop (token chat_id text cmd : pystr) (cmd_args : list pystr)
    (tasks : list (pystr * Task F)) (s : Sys World) :
  parse_command text = (cmd, cmd_args) ->
  is_cmd cmd "/stop" "stop" = true ->
  handle_command World args token chat_id text tasks s =
  match dict_get tasks chat_id with
  | Some _ => Ok (dict_pop tasks chat_id) (after_send token chat_id TxtStopped s)
  | None => Ok tasks (after_send token chat_id TxtNoActive s)
  end.
Proof.
  intros Hparse Hcmd. unfold handle_command. rewrite Hparse.
  assert (Hw : is_cmd cmd "/watch" "watch" = false).
  { apply is_cmd_eq in Hcmd as [-> | ->]; vm_compute; reflexivity. }
  rewrite Hw, Hcmd. simpl. destruct (dict_get tasks chat_id); reflexivity.
Qed.

(** A command changes no task but the sender's, leaves the world alone,
    and sends at most one message, to the sender. *)
Lemma handle_command_frame (token chat_id text : pystr)
    (tasks : list (pystr * Task F)) (s : Sys World) :
  exists tasks' s' new,
    handle_command World args token chat_id text tasks s = Ok tasks' s' /\
    (forall other, other <> chat_id -> dict_get tasks' other = dict_get tasks other) /\
    world s' = world s /\ console s' = console s /\
    outbox s' = outbox s ++ new /\ (length new <= 1)%nat /\
    Forall (fun m => sent_chat m = chat_id /\ sent_token m = token) new.
Proof.
  unfold handle_command, bind, _send_telegram_message, ret.
  destruct (parse_command text) as [cmd cmd_args].
  destruct (is_cmd cmd "/watch" "watch" && (1 <=? length cmd_args)%nat).
  { destruct (scan_watch_args args cmd_args) as [[|u urls] interval];
      eexists _, _, [_]; (split; [reflexivity|]); simpl;
      repeat split; auto; try (repeat constructor; fail).
    intros other Hne. apply dict_get_set_ne, Hne. }
  destruct (is_cmd cmd "/stop" "stop").
  { destruct (dict_get tasks chat_id);
      eexists _, _, [_]; (split; [reflexivity|]); simpl;
      repeat split; auto; try (repeat constructor; fail).
    intros other Hne. apply dict_get_pop_ne, Hne. }
  destruct (is_cmd cmd "/status" "status").
  { destruct (dict_get tasks chat_id);
      eexists _, _, [_]; (split; [reflexivity|]); simpl;
      repeat split; auto; repeat constructor. }
  destruct (is_cmd cmd "/help" "help" || is_cmd cmd "/start" "start").
  { eexists _, _, [_]; (split; [reflexivity|]); simpl;
      repeat split; auto; repeat constructor. }
  exists tasks, s, []. rewrite app_nil_r. repeat split; auto; constructor.
Qed.

End CommandFacts.

(** X5: whatever the text of a command, handling it returns; it changes no
    task other than the sender's, fetches nothing, prints nothing, and
    sends at most one message, which goes to the sender with the bot's
    token. *)
Theorem X5_command_touches_only_its_sender
    (U : Unicodedata) (F : Type) (PF : PyFloat F) (World : Type) (args : Args F)
    (token chat_id text : pystr) (tasks : list (pystr * Task F)) (s : Sys World) :
  exists tasks' s' new,
    handle_command World args token chat_id text tasks s = Ok tasks' s' /\
    (forall other, other <> chat_id -> dict_get tasks' other = dict_get tasks other) /\
    world s' = world s /\ console s' = console s /\
    outbox s' = outbox s ++ new /\ (length new <= 1)%nat /\
    Forall (fun m => sent_chat m = chat_id /\ sent_token m = token) new.
Proof. apply handle_command_frame. Qed.

(** X6: a command whose lower-cased first token is /stop or stop, with any
    tokens after it, removes the sender's task and answers that watching
    stopped, or, when the sender has no task, leaves the table as it is and
    answers that nothing is being watched.  With distinct chat ids in the
    table the sender has no task afterwards, and the chat ids stay
    distinct. *)
Theorem X6_stop_removes_the_senders_task
    (U : Unicodedata) (F : Type) (PF : PyFloat F) (World : Type) (args : Args F)
    (token chat_id text cmd : pystr) (cmd_args : list pystr)
    (tasks : list (pystr * Task F)) (s : Sys World) :
  parse_command text = (cmd, cmd_args) ->
  is_cmd cmd "/stop" "stop" = true ->
  NoDup (List.map fst tasks) ->
  exists tasks',
    handle_command World args token chat_id text tasks s =
      Ok tasks' (after_send token chat_id
                   (match dict_get tasks chat_id with Some _ => TxtStopped | None => TxtNoActive end) s) /\
    tasks' = dict_pop tasks chat_id /\
    (dict_get tasks chat_id = None -> tasks' = tasks) /\
    dict_get tasks' chat_id = None /\
    NoDup (List.map fst tasks').
Proof.
  intros Hparse Hcmd Hnd.
  rewrite (handle_command_stop World args token chat_id text cmd cmd_args tasks s Hparse Hcmd).
  assert (Hnone : dict_get tasks chat_id = None -> dict_pop tasks chat_id = tasks).
  { clear. induction tasks as [|[k v] d IH]; simpl; [reflexivity|].
    destruct (str_eqb k chat_id); [discriminate|]. intros H. rewrite IH by exact H. reflexivity. }
  exists (dict_pop tasks chat_id).
  split; [|split; [reflexivity|split; [exact Hnone|split]]].
  - destruct (dict_get tasks chat_id) eqn:E; [reflexivity|]. rewrite Hnone by reflexivity.
    reflexivity.
  - apply dict_get_pop_eq, Hnd.
  - apply dict_pop_NoDup, Hnd.
Qed.

Lemma X6_stop_removes_the_senders_task_witness :
  let a := lit "https://a.test" in
  let tasks := [(lit "7", new_task (PF := Q_float) [a] 5%Q);
                (lit "42", new_task (PF := Q_float) [a] 9%Q)] in
  handle_command (U := ucd_rows) (PF := Q_float) Sim.World Sim.args
    (lit "TOKEN") (lit "42") (lit " /STOP now please") tasks (Sim.start 100 [])
  = Ok [(lit "7", new_task (PF := Q_float) [a] 5%Q)]
       (after_send (lit "TOKEN") (lit "42") TxtStopped (Sim.start 100 [])).
Proof.
  cbv zeta.
  destruct (X6_stop_removes_the_senders_task ucd_rows Q Q_float Sim.World Sim.args
              (lit "TOKEN") (lit "42") (lit " /STOP now please") (lit "/stop")
              [lit "now"; lit "please"]
              [(lit "7", new_task (PF := Q_float) [lit "https://a.test"] 5%Q);
               (lit "42", new_task (PF := Q_float) [lit "https://a.test"] 9%Q)]
              (Sim.start 100 []) eq_refl eq_refl)
    as (tasks' & Hrun & -> & _).
  - repeat constructor; rewrite list_elem_of_In; simpl; intuition discriminate.
  - exact Hrun.
Defined.

(** X7: for a chat that has no task, a start-watch command with a URL
    followed by a stop command gives the table back as it was. *)
Theorem X7_watch_then_stop_restores_the_table
    (U : Unicodedata) (F : Type) (PF : PyFloat F) (World : Type) (args : Args F)
    (token chat_id watch_text stop_text watch_cmd stop_cmd : pystr)
    (watch_args stop_args : list pystr)
    (tasks : list (pystr * Task F)) (s : Sys World) :
  parse_command watch_text = (watch_cmd, watch_args) ->
  is_cmd watch_cmd "/watch" "watch" = true ->
  List.filter is_url watch_args <> [] ->
  parse_command stop_text = (stop_cmd, stop_args) ->
  is_cmd stop_cmd "/stop" "stop" = true ->
  dict_get tasks chat_id = None ->
  exists tasks1 s1 s2,
    handle_command World args token chat_id watch_text tasks s = Ok tasks1 s1 /\
    dict_get tasks1 chat_id <> None /\
    handle_command World args token chat_id stop_text tasks1 s1 = Ok tasks s2.
Proof.
  intros Hw Hwc Hurls Hs Hsc Hnone.
  assert (Hargs : watch_args <> []) by (intros ->; apply Hurls; reflexivity).
  rewrite (handle_command_watch World args token chat_id watch_text watch_cmd watch_args
             tasks s Hw Hwc Hargs).
  destruct (List.filter is_url watch_args) as [|u urls] eqn:Hf; [congruence|].
  eexists _, _, _. split; [reflexivity|].
  split; [rewrite dict_get_set_eq; discriminate|].
  rewrite (handle_command_stop World args token chat_id stop_text stop_cmd stop_args
             _ _ Hs Hsc).
  rewrite dict_get_set_eq, dict_pop_set_new by exact Hnone. reflexivity.
Qed.

Lemma X7_watch_then_stop_restores_the_table_witness :
  let tasks := [(lit "7", new_task (PF := Q_float) [lit "https://b.test"] 5%Q)] in
  exists tasks1 s1 s2,
    handle_command (U := ucd_rows) (PF := Q_float) Sim.World Sim.args (lit "TOKEN")
      (lit "42") (lit "/watch https://a.test 3") tasks (Sim.start 100 []) = Ok tasks1 s1 /\
    dict_get tasks1 (lit "42") <> None /\
    handle_command (U := ucd_rows) (PF := Q_float) Sim.World Sim.args (lit "TOKEN")
      (lit "42") (lit "stop") tasks1 s1 = Ok tasks s2.
Proof.
  cbv zeta.
  apply (X7_watch_then_stop_restores_the_table ucd_rows Q Q_float Sim.World Sim.args
           (lit "TOKEN") (lit "42") (lit "/watch https://a.test 3") (lit "stop")
           (lit "/watch") (lit "stop") [lit "https://a.test"; lit "3"] []);
    try reflexivity.
  discriminate.
Defined.

(** X8: a text whose lower-cased first token is none of the bot's verbs, a
    text of whitespace only, and a start-watch verb without any argument
    have no effect at all: no task changes and nothing is sent. *)
Theorem X8_other_texts_are_ignored
    (U : Unicodedata) (F : Type) (PF : PyFloat F) (World : Type) (args : Args F)
    (token chat_id text cmd : pystr) (cmd_args : list pystr)
    (tasks : list (pystr * Task F)) (s : Sys World) :
  parse_command text = (cmd, cmd_args) ->
  (is_cmd cmd "/watch" "watch" = true /\ cmd_args = []) \/
  ~ In cmd [lit "/watch"; lit "watch"; lit "/stop"; lit "stop"; lit "/status";
            lit "status"; lit "/help"; lit "help"; lit "/start"; lit "start"] ->
  handle_command World args token chat_id text tasks s = Ok tasks s.
Proof.
  intros Hparse Hcase. unfold handle_command. rewrite Hparse.
  destruct Hcase as [[Hw ->] | Hno].
  - rewrite Hw. simpl.
    apply is_cmd_eq in Hw as [-> | ->]; vm_compute; reflexivity.
  - assert (Hf : forall a b : string,
               In (lit a) [lit "/watch"; lit "watch"; lit "/stop"; lit "stop"; lit "/status";
                           lit "status"; lit "/help"; lit "help"; lit "/start"; lit "start"] ->
               In (lit b) [lit "/watch"; lit "watch"; lit "/stop"; lit "stop"; lit "/status";
                           lit "status"; lit "/help"; lit "help"; lit "/start"; lit "start"] ->
               is_cmd cmd a b = false).
    { intros a b Ha Hb. destruct (is_cmd cmd a b) eqn:E; [|reflexivity].
      apply is_cmd_eq in E as [-> | ->]; contradiction. }
    rewrite !Hf by (simpl; tauto). reflexivity.
Qed.

Lemma X8_other_texts_are_ignored_witness :
  handle_command (U := ucd_rows) (PF := Q_float) Sim.World Sim.args (lit "TOKEN")
    (lit "42") (lit "hello bot") [] (Sim.start 100 []) = Ok [] (Sim.start 100 []) /\
  handle_command (U := ucd_rows) (PF := Q_float) Sim.World Sim.args (lit "TOKEN")
    (lit "42") (lit "  /Watch ") [] (Sim.start 100 []) = Ok [] (Sim.start 100 []).
Proof.
  split.
  - apply (X8_other_texts_are_ignored ucd_rows Q Q_float Sim.World Sim.args (lit "TOKEN")
             (lit "42") (lit "hello bot") (lit "hello") [lit "bot"]); [reflexivity|].
    right. simpl. intuition discriminate.
  - apply (X8_other_texts_are_ignored ucd_rows Q Q_float Sim.World Sim.args (lit "TOKEN")
             (lit "42") (lit "  /Watch ") (lit "/watch") []); [reflexivity|].
    left. split; reflexivity.
Defined.
(** ** Updates *)

Section UpdateFacts.
Context {U : Unicodedata} {F : Type} {PF : PyFloat F}.
Variable World : Type.
Variable args : Args F.

Lemma process_update_offset (token : pystr) (st st' : BotState) (upd : Update)
    (s s' : Sys World) :
  process_update World args token st upd s = Ok st' s' ->
  next_offset st'
  = Some (Z.max (default 0%Z (next_offset st)) (default 0%Z (update_id upd) + 1)).
Proof.
  unfold process_update.
  destruct (message_or_edited upd) as [m|]; [|intros [= <- _]; reflexivity].
  destruct (negb (msg_truthy m)); [intros [= <- _]; reflexivity|].
  unfold read_chat_id.
  destruct (msg_chat m) as [[chat_id|]|]; [| discriminate |]; unfold bind at 1, ret at 1.
  - destruct (negb (truthy_opt (Some chat_id)) || negb (truthy (default [] (msg_text m))));
      [intros [= <- _]; reflexivity|].
    unfold bind.
    destruct (handle_command _ _ _ _ _ _ s) as [tasks' s1|]; [|discriminate].
    intros [= <- _]. reflexivity.
  - cbn [truthy_opt negb orb]. intros [= <- _]. reflexivity.
Qed.

Lemma process_updates_offset (token : pystr) (updates : list Update)
    (st st' : BotState) (s s' : Sys World) :
  process_updates World args token st updates s = Ok st' s' ->
  updates <> [] ->
  exists o : Z,
    next_offset st' = Some o /\
    (default 0%Z (next_offset st) <= o)%Z /\
    Forall (fun upd => (default 0%Z (update_id upd) < o)%Z) updates.
Proof.
  revert st s. induction updates as [|upd updates IH]; intros st s Hrun Hne; [congruence|].
  cbn [process_updates] in Hrun. unfold bind at 1 in Hrun.
  destruct (process_update World args token st upd s) as [st1 s1|] eqn:H1; [|discriminate].
  apply process_update_offset in H1.
  destruct updates as [|upd2 updates].
  - injection Hrun as <- <-. eexists. split; [exact H1|]. split; [lia|].
    constructor; [lia | constructor].
  - destruct (IH st1 s1 Hrun ltac:(discriminate)) as (o & Ho & Hle & Hall).
    rewrite H1 in Hle. simpl in Hle.
    exists o. split; [exact Ho|]. split; [lia|]. constructor; [lia | exact Hall].
Qed.

Lemma process_update_skip (token : pystr) (st : BotState) (upd : Update) (s : Sys World) :
  match message_or_edited upd with
  | None => True
  | Some m =>
      match msg_chat m with
      | None => True
      | Some None => False
      | Some (Some chat_id) => truthy chat_id = false \/ truthy_opt (msg_text m) = false
      end
  end ->
  process_update World args token st upd s
  = Ok {| tasks := tasks st;
          next_offset := Some (Z.max (default 0%Z (next_offset st))
                                     (default 0%Z (update_id upd) + 1)) |} s.
Proof.
  unfold process_update. destruct (message_or_edited upd) as [m|]; [|reflexivity].
  destruct (negb (msg_truthy m)); [reflexivity|].
  unfold read_chat_id.
  destruct (msg_chat m) as [[chat_id|]|]; [| intros [] | reflexivity].
  unfold bind, ret. cbn [truthy_opt]. intros [H | H].
  - rewrite H. reflexivity.
  - assert (Ht : truthy (default [] (msg_text m)) = false)
      by (destruct (msg_text m); [exact H | reflexivity]).
    rewrite Ht, orb_true_r. reflexivity.
Qed.

End UpdateFacts.

(** X9: a batch of updates is processed to its end exactly when no message
    the loop reads in it has a chat object without an id; the first such
    message raises (the subscript ["id"] is outside any [try]) and the
    updates after it are not processed.  When a non-empty batch has been
    processed, the offset for the next poll is set, is not below the offset
    before, and is above the id of every update of the batch (an update
    without an id counting as 0): no update of the batch is asked for
    again. *)
Theorem X9_offset_passes_every_update
    (U : Unicodedata) (F : Type) (PF : PyFloat F) (World : Type) (args : Args F)
    (token : pystr) (st : BotState) (s : Sys World) :
  (forall updates,
     (exists st' s', process_updates World args token st updates s = Ok st' s')
     <-> Forall chat_has_id updates) /\
  (forall before upd after st1 s1,
     process_updates World args token st before s = Ok st1 s1 ->
     ~ chat_has_id upd ->
     process_updates World args token st (before ++ upd :: after) s
     = Raise OtherException s1) /\
  (forall updates st' s',
     process_updates World args token st updates s = Ok st' s' ->
     updates <> [] ->
     exists o,
       next_offset st' = Some o /\
       (default 0%Z (next_offset st) <= o)%Z /\
       Forall (fun upd => (default 0%Z (update_id upd) < o)%Z) updates).
Proof.
  split; [|split].
  - intros updates. split.
    + intros (st' & s' & Hrun). eapply process_updates_keyed, Hrun.
    + apply process_updates_returns.
  - intros before upd after st1 s1. apply process_updates_raises.
  - intros updates st' s'. apply process_updates_offset.
Qed.

Lemma X9_offset_passes_every_update_witness :
  let help := {| update_id := Some 12%Z;
                 message := Some {| msg_chat := Some (Some (lit "42"));
                                    msg_text := Some (lit "/help"); msg_more := true |};
                 edited_message := None |} in
  let bare := {| update_id := Some 11%Z; message := None; edited_message := None |} in
  let no_id := {| update_id := Some 13%Z;
                  message := Some {| msg_chat := Some None;
                                     msg_text := Some (lit "/stop"); msg_more := true |};
                  edited_message := None |} in
  let st := {| tasks := @nil (pystr * Task Q); next_offset := Some 5%Z |} in
  (exists st' s',
     process_updates (U := ucd_rows) (PF := Q_float) Sim.World Sim.args (lit "TOKEN")
       st [help; bare] (Sim.start 100 []) = Ok st' s' /\
     next_offset st' = Some 13%Z) /\
  (exists s1,
     process_updates (U := ucd_rows) (PF := Q_float) Sim.World Sim.args (lit "TOKEN")
       st ([help; bare] ++ no_id :: [help]) (Sim.start 100 []) = Raise OtherException s1 /\
     length (outbox s1) = 1%nat).
Proof.
  cbv zeta.
  pose proof (X9_offset_passes_every_update ucd_rows Q Q_float Sim.World Sim.args
                (lit "TOKEN") {| tasks := []; next_offset := Some 5%Z |} (Sim.start 100 []))
    as (Hret & Hraise & Hoff).
  destruct (proj2 (Hret
              [ {| update_id := Some 12%Z;
                   message := Some {| msg_chat := Some (Some (lit "42"));
                                      msg_text := Some (lit "/help"); msg_more := true |};
                   edited_message := None |};
                {| update_id := Some 11%Z; message := None; edited_message := None |} ]))
    as (st' & s' & Hrun).
  { constructor; [vm_compute; discriminate|]. constructor; [exact I | constructor]. }
  split.
  - exists st', s'. split; [exact Hrun|].
    destruct (Hoff _ st' s' Hrun ltac:(discriminate)) as (o & Ho & _).
    vm_compute in Hrun. injection Hrun as <- _. reflexivity.
  - exists s'. split.
    + apply (Hraise _ _ _ st' s' Hrun). vm_compute. intros H. apply H. reflexivity.
    + vm_compute in Hrun. injection Hrun as _ <-. reflexivity.
Defined.

(** X10: an update is skipped, changing no task and sending nothing while
    still moving the offset past its id, when the loop reads no message
    from it (neither key, or empty objects), or a message without a chat,
    or one whose chat id or text is empty or missing.  The loop reads
    [edited_message] where [message] is missing or an empty object: an
    edited message is then handled as a message would be. *)
Theorem X10_updates_without_command_are_skipped
    (U : Unicodedata) (F : Type) (PF : PyFloat F) (World : Type) (args : Args F)
    (token : pystr) (st : BotState) (s : Sys World) :
  (forall upd,
     match message_or_edited upd with
     | None => True
     | Some m =>
         match msg_chat m with
         | None => True
         | Some None => False
         | Some (Some chat_id) => truthy chat_id = false \/ truthy_opt (msg_text m) = false
         end
     end ->
     process_update World args token st upd s
     = Ok {| tasks := tasks st;
             next_offset := Some (Z.max (default 0%Z (next_offset st))
                                        (default 0%Z (update_id upd) + 1)) |} s) /\
  (forall id m other,
     msg_truthy m = true ->
     process_update World args token st
       {| update_id := id; message := None; edited_message := Some m |} s
     = process_update World args token st
         {| update_id := id; message := Some m; edited_message := other |} s) /\
  (forall id empty edited,
     msg_truthy empty = false ->
     process_update World args token st
       {| update_id := id; message := Some empty; edited_message := edited |} s
     = process_update World args token st
         {| update_id := id; message := None; edited_message := edited |} s).
Proof.
  split; [|split].
  - intros upd H. apply process_update_skip, H.
  - intros id m other Hm. unfold process_update, message_or_edited.
    cbn [message edited_message update_id].
    rewrite Hm. cbv beta iota. rewrite Hm. reflexivity.
  - intros id empty edited He. unfold process_update, message_or_edited.
    cbn [message edited_message update_id].
    destruct (msg_truthy empty); [discriminate | reflexivity].
Qed.

Lemma X10_updates_without_command_are_skipped_witness :
  let st := {| tasks := [(lit "42", new_task (PF := Q_float) [lit "https://a.test"] 5%Q)];
               next_offset := None |} in
  let empty := {| msg_chat := None; msg_text := None; msg_more := false |} in
  let stop := {| msg_chat := Some (Some (lit "42")); msg_text := Some (lit "/stop");
                 msg_more := true |} in
  process_update (U := ucd_rows) (PF := Q_float) Sim.World Sim.args (lit "TOKEN") st
    {| update_id := Some 3%Z;
       message := Some {| msg_chat := Some (Some (lit "42")); msg_text := Some [];
                          msg_more := true |};
       edited_message := None |} (Sim.start 100 [])
  = Ok {| tasks := tasks st; next_offset := Some 4%Z |} (Sim.start 100 []) /\
  process_update (U := ucd_rows) (PF := Q_float) Sim.World Sim.args (lit "TOKEN") st
    {| update_id := Some 3%Z; message := Some empty; edited_message := Some stop |}
    (Sim.start 100 [])
  = Ok {| tasks := []; next_offset := Some 4%Z |}
       (after_send (lit "TOKEN") (lit "42") TxtStopped (Sim.start 100 [])).
Proof.
  cbv zeta.
  pose proof (X10_updates_without_command_are_skipped ucd_rows Q Q_float Sim.World
                Sim.args (lit "TOKEN")
                {| tasks := [(lit "42", new_task (PF := Q_float) [lit "https://a.test"] 5%Q)];
                   next_offset := None |} (Sim.start 100 [])) as (Hskip & _ & Hempty).
  split.
  - rewrite (Hskip {| update_id := Some 3%Z;
                      message := Some {| msg_chat := Some (Some (lit "42"));
                                         msg_text := Some []; msg_more := true |};
                      edited_message := None |}) by (right; reflexivity).
    reflexivity.
  - rewrite (Hempty (Some 3%Z) {| msg_chat := None; msg_text := None; msg_more := false |}
               (Some {| msg_chat := Some (Some (lit "42")); msg_text := Some (lit "/stop");
                        msg_more := true |}) eq_refl).
    vm_compute. reflexivity.
Defined.

(** ** What the bot keeps true of its table *)

Lemma dict_set_NoDup {V : Type} (d : list (pystr * V)) (k : pystr) (v : V) :
  NoDup (List.map fst d) -> NoDup (List.map fst (dict_set d k v)).
Proof.
  induction d as [|[k' v'] d IH]; simpl.
  - intros _. apply NoDup_singleton.
  - intros Hnd. apply NoDup_cons in Hnd as [Hk Hnd].
    destruct (str_eqb k' k) eqn:E; simpl.
    + apply NoDup_cons. auto.
    + apply NoDup_cons. split; [|apply IH, Hnd].
      rewrite list_elem_of_In in *. intros Hin. apply Hk.
      clear IH Hnd Hk. induction d as [|[k2 v2] d IHd]; simpl in *.
      * destruct Hin as [->|[]]. rewrite str_eqb_refl in E. discriminate.
      * destruct (str_eqb k2 k); simpl in *; [exact Hin|].
        destruct Hin as [H|H]; [left; exact H | right; apply IHd, H].
Qed.

Lemma dict_set_Forall {V : Type} (P : pystr * V -> Prop) (d : list (pystr * V))
    (k : pystr) (v : V) :
  Forall P d -> P (k, v) -> Forall P (dict_set d k v).
Proof.
  intros Hd Hk. induction Hd as [|[k' v'] d Hp Hd IH]; simpl.
  - constructor; [exact Hk | constructor].
  - destruct (str_eqb k' k) eqn:E.
    + apply str_eqb_eq in E as ->. constructor; assumption.
    + constructor; assumption.
Qed.

Lemma dict_pop_Forall {V : Type} (P : pystr * V -> Prop) (d : list (pystr * V)) (k : pystr) :
  Forall P d -> Forall P (dict_pop d k).
Proof.
  induction 1 as [|[k' v'] d Hp Hd IH]; simpl; [constructor|].
  destruct (str_eqb k' k); [exact Hd | constructor; assumption].
Qed.

Lemma new_task_ok {F : Type} {PF : PyFloat F} (urls : list pystr) (interval : F) :
  urls <> [] -> task_ok (new_task urls interval).
Proof. intros H. split; [exact H | apply fresh_states_dom]. Qed.

Section TableFacts.
Context {U : Unicodedata} {F : Type} {PF : PyFloat F}.
Variable World : Type.
Variable requests_get : pystr -> F -> World -> (exception + Response) * World.
Variable codec_decode : pystr -> list N -> pystr.
Variable time_time : World -> F.
Variable time_sleep : F -> World -> World.
Variable telegram_get_updates : pystr -> option Z -> World -> list Update * World.
Variable args : Args F.

Lemma handle_command_table_ok (token chat_id text : pystr)
    (tasks tasks' : list (pystr * Task F)) (s s' : Sys World) :
  truthy chat_id = true -> table_ok tasks ->
  handle_command World args token chat_id text tasks s = Ok tasks' s' ->
  table_ok tasks'.
Proof.
  intros Hchat [Hnd Hall]. unfold handle_command, bind, _send_telegram_message, ret.
  destruct (parse_command text) as [cmd cmd_args].
  destruct (is_cmd cmd "/watch" "watch" && (1 <=? length cmd_args)%nat).
  { destruct (scan_watch_args args cmd_args) as [[|u urls] interval]; intros [= <- _].
    - split; assumption.
    - split; [apply dict_set_NoDup, Hnd|].
      apply dict_set_Forall; [exact Hall|]. split; [exact Hchat|].
      apply new_task_ok. discriminate. }
  destruct (is_cmd cmd "/stop" "stop").
  { destruct (dict_get tasks chat_id); intros [= <- _]; [|split; assumption].
    split; [apply dict_pop_NoDup, Hnd | apply dict_pop_Forall, Hall]. }
  destruct (is_cmd cmd "/status" "status").
  { destruct (dict_get tasks chat_id); intros [= <- _]; split; assumption. }
  destruct (is_cmd cmd "/help" "help" || is_cmd cmd "/start" "start");
    intros [= <- _]; split; assumption.
Qed.

Lemma process_updates_table_ok (token : pystr) (updates : list Update)
    (st st' : BotState) (s s' : Sys World) :
  table_ok (tasks st) ->
  process_updates World args token st updates s = Ok st' s' ->
  table_ok (tasks st').
Proof.
  revert st s. induction updates as [|upd updates IH]; intros st s Hok.
  - intros [= <- _]. exact Hok.
  - cbn [process_updates]. unfold bind at 1.
    destruct (process_update World args token st upd s) as [st1 s1|] eqn:H1; [|discriminate].
    apply IH. revert H1. unfold process_update.
    destruct (message_or_edited upd) as [m|]; [|intros [= <- _]; exact Hok].
    destruct (negb (msg_truthy m)); [intros [= <- _]; exact Hok|].
    unfold read_chat_id.
    destruct (msg_chat m) as [[c|]|]; [| discriminate | intros [= <- _]; exact Hok].
    unfold bind at 1, ret at 1. cbn [truthy_opt default].
    destruct (negb (truthy c)) eqn:Hc; [intros [= <- _]; exact Hok|].
    destruct (negb (truthy (default [] (msg_text m)))); [intros [= <- _]; exact Hok|].
    simpl. unfold bind.
    destruct (handle_command _ _ _ _ _ _ s) as [tasks' s2|] eqn:Hh; [|discriminate].
    intros [= <- _]. simpl.
    apply negb_false_iff in Hc.
    exact (handle_command_table_ok _ _ _ _ _ _ _ Hc Hok Hh).
Qed.

Lemma sweep_dom (chat_id : pystr) (urls : list pystr)
    (states states' : gmap pystr (option bool)) (s s' : Sys World) :
  sweep World requests_get codec_decode args chat_id urls states s = Ok states' s' ->
  dom states' = dom states ∪ (list_to_set urls : gset pystr).
Proof.
  revert states s. induction urls as [|x urls IH]; intros states s Hs.
  - injection Hs as <- <-. simpl. rewrite (right_id_L ∅ (∪)). reflexivity.
  - apply sweep_step in Hs as (e & s1 & Hs & _).
    rewrite (IH _ _ Hs), dom_insert_L. simpl.
    rewrite (assoc_L (∪)), (comm_L (∪) {[x]} (dom states)). reflexivity.
Qed.

Lemma check_tasks_table_ok (now : F) (tasks tasks' : list (pystr * Task F))
    (s s' : Sys World) :
  table_ok tasks ->
  check_tasks World requests_get codec_decode args now tasks s = Ok tasks' s' ->
  table_ok tasks'.
Proof.
  intros [Hnd Hall] Hrun.
  assert (Hkeys : List.map fst tasks' = List.map fst tasks /\
                  Forall (fun ct => truthy (fst ct) = true /\ task_ok (snd ct)) tasks').
  { clear Hnd. revert tasks' s s' Hrun.
    induction Hall as [|[chat_id task] tasks [Hc Ht] Hall IH]; intros tasks' s s'.
    - intros [= <- _]. split; [reflexivity | constructor].
    - cbn [check_tasks]. unfold bind at 1.
      destruct (check_task _ _ _ _ _ _ _ s) as [task1 s1|] eqn:H1; [|discriminate].
      unfold bind at 1.
      destruct (check_tasks _ _ _ _ _ _ s1) as [rest1 s2|] eqn:H2; [|discriminate].
      intros [= <- _]. destruct (IH _ _ _ H2) as [Hk Hf].
      split; [simpl; rewrite Hk; reflexivity|].
      constructor; [|exact Hf]. split; [exact Hc|].
      revert H1. unfold check_task, bind. destruct (f_ge now (task_next_at task)).
      + destruct (sweep _ _ _ _ _ _ _ s) as [st1 s3|] eqn:Hs; [|discriminate].
        intros [= <- _]. destruct Ht as [Hu Hd]. split; [exact Hu|]. simpl in *.
        rewrite (sweep_dom _ _ _ _ _ _ Hs), Hd. apply (idemp_L (∪)).
      + intros [= <- _]. exact Ht. }
  destruct Hkeys as [Hk Hf]. split; [rewrite Hk; exact Hnd | exact Hf].
Qed.

Lemma bot_iteration_table_ok (st st' : BotState) (s s' : Sys World) :
  table_ok (tasks st) ->
  bot_iteration World requests_get codec_decode time_time time_sleep
    telegram_get_updates args st s = Ok st' s' ->
  table_ok (tasks st').
Proof.
  intros Hok. unfold bot_iteration, bind at 1, _get_telegram_updates.
  destruct (telegram_get_updates (args_tg_token args) (next_offset st) (world s))
    as [updates w].
  unfold bind at 1.
  destruct (process_updates _ _ _ _ _ _) as [st1 s1|] eqn:H1; [|discriminate].
  apply process_updates_table_ok in H1; [|exact Hok].
  unfold bind at 1, run_due_checks, bind at 1, now_.
  destruct (check_tasks _ _ _ _ _ _ s1) as [tasks' s2|] eqn:H2; [|discriminate].
  apply check_tasks_table_ok in H2; [|exact H1].
  intros [= <- _]. exact H2.
Qed.

End TableFacts.

(** X11: the table of the bot is well formed when the loop is entered and
    after every turn of the loop that returns: no chat id occurs twice, no
    chat id is empty, and every task has at least one URL and keeps states
    for exactly its URLs. *)
Theorem X11_table_stays_well_formed
    (U : Unicodedata) (F : Type) (PF : PyFloat F) (World : Type)
    (requests_get : pystr -> F -> World -> (exception + Response) * World)
    (codec_decode : pystr -> list N -> pystr) (time_time : World -> F)
    (time_sleep : F -> World -> World)
    (telegram_get_updates : pystr -> option Z -> World -> list Update * World)
    (args : Args F) :
  (forall st s s', bot_start World args s = Ok st s' -> table_ok (tasks st)) /\
  (forall st st' s s',
     table_ok (tasks st) ->
     bot_iteration World requests_get codec_decode time_time time_sleep
       telegram_get_updates args st s = Ok st' s' ->
     table_ok (tasks st')).
Proof.
  split.
  - intros st s s'. unfold bot_start. destruct (negb (truthy (args_tg_token args)));
      [discriminate|].
    intros [= <- _]. split; [apply NoDup_nil_2 | constructor].
  - intros st st' s s'. apply bot_iteration_table_ok.
Qed.

Lemma X11_table_stays_well_formed_witness :
  let watch := {| update_id := Some 1%Z;
                  message := Some {| msg_chat := Some (Some (lit "42"));
                                     msg_text := Some (lit "/watch https://a.test https://a.test");
                                     msg_more := true |};
                  edited_message := None |} in
  let s := {| world := {| Sim.clock := 100; Sim.script := [(1, Sim.page "register now")]%Q;
                          Sim.inbox := [[watch]] |};
              outbox := []; console := [] |} in
  exists st' s',
    bot_iteration (U := ucd_rows) (PF := Q_float) Sim.World Sim.requests_get
      Sim.codec_decode Sim.time_time Sim.time_sleep Sim.telegram_get_updates Sim.args
      {| tasks := []; next_offset := None |} s = Ok st' s' /\
    List.map fst (tasks st') = [lit "42"] /\ table_ok (tasks st').
Proof.
  cbv zeta.
  destruct (bot_iteration _ _ _ _ _ _ _ _ _) as [st' s'|e s'] eqn:Hrun;
    [|vm_compute in Hrun; discriminate].
  exists st', s'. split; [reflexivity|]. split.
  - vm_compute in Hrun. injection Hrun as <- _. reflexivity.
  - eapply (proj2 (X11_table_stays_well_formed ucd_rows Q Q_float Sim.World Sim.requests_get
                     Sim.codec_decode Sim.time_time Sim.time_sleep Sim.telegram_get_updates
                     Sim.args) {| tasks := []; next_offset := None |});
      [|exact Hrun].
    split; [apply NoDup_nil_2 | constructor].
Defined.

(** ** The normaliser, continued *)

Lemma split_all_space (x : pystr) : forallb isspace x = true -> split x = [].
Proof.
  induction x as [|c x IH]; [reflexivity|].
  simpl. intros H. apply andb_true_iff in H as [Hc Hx]. rewrite Hc. apply IH, Hx.
Qed.

(** On plain text the normal form is the lower-cased words, one space
    between them. *)
Lemma _normalize_arabic_words {U : Unicodedata} (x : pystr) :
  agrees_on_plain U -> forallb plain x = true ->
  _normalize_arabic x = join [0x20] (split (List.map plain_lower x)).
Proof.
  intros HU Hx. rewrite (_normalize_arabic_plain x HU Hx). unfold collapse_whitespace.
  rewrite (split_map plain_lower x isspace_plain_lower).
  rewrite <- (join_map plain_lower [0x20]). reflexivity.
Qed.

Lemma ascii_only_plain (x : pystr) :
  forallb ascii_only x = true -> forallb plain x = true.
Proof.
  intros H. apply forallb_Forall_true. apply forallb_Forall_true in H.
  eapply Forall_impl; [exact H|]. intros c Hc. unfold plain.
  unfold ascii_only in Hc. rewrite Hc. reflexivity.
Qed.

(** X12: the normal form of a text of ASCII characters and Arabic letters
    depends only on its words up to letter case: two such texts with the
    same words up to case have the same normal form, whatever whitespace
    separates or surrounds the words.  On ASCII text the converse holds:
    two texts with the same normal form have the same words up to case. *)
Theorem X12_normal_form_is_the_words_up_to_case (U : Unicodedata) :
  agrees_on_plain U ->
  (forall x y : pystr,
     forallb plain x = true -> forallb plain y = true ->
     split (List.map plain_lower x) = split (List.map plain_lower y) ->
     _normalize_arabic x = _normalize_arabic y) /\
  (forall x y : pystr,
     forallb ascii_only x = true -> forallb ascii_only y = true ->
     _normalize_arabic x = _normalize_arabic y ->
     split (List.map plain_lower x) = split (List.map plain_lower y)).
Proof.
  intros HU. split.
  - intros x y Hx Hy H.
    rewrite (_normalize_arabic_words x HU Hx), (_normalize_arabic_words y HU Hy), H.
    reflexivity.
  - intros x y Hx Hy H.
    rewrite (_normalize_arabic_words x HU (ascii_only_plain x Hx)) in H.
    rewrite (_normalize_arabic_words y HU (ascii_only_plain y Hy)) in H.
    apply (f_equal split) in H.
    rewrite !split_join in H by apply split_tokens. exact H.
Qed.

Lemma X12_normal_form_is_the_words_up_to_case_witness :
  _normalize_arabic (U := ucd_rows) (lit "  Register   NOW ")
  = _normalize_arabic (U := ucd_rows) (lit "register now") /\
  split (List.map plain_lower (lit "Sold  OUT")) = split (List.map plain_lower (lit "sold out")).
Proof.
  split.
  - apply (proj1 (X12_normal_form_is_the_words_up_to_case ucd_rows ucd_rows_agrees_on_plain));
      reflexivity.
  - apply (proj2 (X12_normal_form_is_the_words_up_to_case ucd_rows ucd_rows_agrees_on_plain));
      [reflexivity | reflexivity | vm_compute; reflexivity].
Defined.

(** X13: a needle that is empty or made of ASCII whitespace only is found
    in every page. *)
Theorem X13_blank_needle_matches_every_page
    (U : Unicodedata) (page needle : pystr) :
  agrees_on_plain U -> forallb plain needle = true -> forallb isspace needle = true ->
  contains_text page needle = true.
Proof.
  intros HU Hp Hs. unfold contains_text.
  rewrite (_normalize_arabic_plain needle HU Hp). unfold collapse_whitespace.
  rewrite (split_all_space needle Hs). simpl.
  destruct (_normalize_arabic page); reflexivity.
Qed.

Lemma X13_blank_needle_matches_every_page_witness :
  contains_text (U := ucd_rows) (lit "closed") [0x20; 0x09; 0x0A] = true.
Proof.
  apply (X13_blank_needle_matches_every_page ucd_rows);
    [exact ucd_rows_agrees_on_plain | reflexivity | reflexivity].
Defined.

(** ** The command-line modes *)

Section CommandLineFacts.
Context {U : Unicodedata} {F : Type} {PF : PyFloat F} {PS : PyFloatSub F}.
Variable World : Type.
Variable requests_get : pystr -> F -> World -> (exception + Response) * World.
Variable codec_decode : pystr -> list N -> pystr.
Variable time_time : World -> F.
Variable time_sleep : F -> World -> World.
Variable args : Args F.

Local Abbreviation scan := (cli_scan World requests_get codec_decode args).
Local Abbreviation chat := (args_tg_chat_id args).
Local Abbreviation misses urls := (List.map (fun url : pystr => (url, false)) urls).

(** The notification of the command-line modes for [url], if the token and
    the chat id allow one. *)
Local Abbreviation note url :=
  (if truthy (args_tg_token args) && truthy chat then [found_msg args chat url] else []).

Lemma cli_scan_cons (url : pystr) (rest : list pystr) (s : Sys World) :
  scan (url :: rest) s =
  match page_contains_text World requests_get codec_decode url
          (args_find args) (args_timeout args) s with
  | Ok e s1 =>
      let s2 := after_check args chat url e None s1 in
      if e then Ok (Some url) s2 else scan rest s2
  | Raise ex s1 =>
      if is_request_exception ex
      then scan rest (after_check args chat url false None s1)
      else Raise ex s1
  end.
Proof.
  cbn [cli_scan]. unfold bind at 1, try_except_requests, bind at 1.
  destruct (page_contains_text _ _ _ _ _ _ s) as [e s1|ex s1].
  - unfold bind at 1. rewrite handle_result_eq. unfold ret at 1.
    destruct e; reflexivity.
  - destruct (is_request_exception ex); [|reflexivity].
    unfold bind at 1. rewrite handle_result_eq. reflexivity.
Qed.

Lemma cli_scan_ok (urls : list pystr) (s s' : Sys World) (r : option pystr) :
  scan urls s = Ok r s' ->
  match r with
  | Some u =>
      exists before after,
        urls = before ++ u :: after /\
        console s' = console s ++ misses before ++ [(u, true)] /\
        outbox s' = outbox s ++ note u
  | None =>
      console s' = console s ++ misses urls /\ outbox s' = outbox s
  end.
Proof.
  revert s. induction urls as [|x urls IH]; intros s.
  - intros [= <- <-]. rewrite app_nil_r. auto.
  - rewrite cli_scan_cons.
    pose proof (page_contains_text_logs World requests_get codec_decode x
                  (args_find args) (args_timeout args) s) as Hlog. simpl in Hlog.
    destruct (page_contains_text _ _ _ _ _ _ s) as [e s1|ex s1];
      simpl in Hlog; destruct Hlog as [Ho Hc].
    + destruct e; cbv zeta.
      * intros [= <- <-]. exists [], urls. simpl. rewrite Ho, Hc. auto.
      * intros Hs. apply IH in Hs. simpl in Hs. rewrite Ho, Hc, app_nil_r in Hs.
        destruct r as [u|].
        -- destruct Hs as (before & after & -> & Hcon & Hout).
           exists (x :: before), after. rewrite Hcon, Hout, <- app_assoc. auto.
        -- destruct Hs as [Hcon Hout]. rewrite Hcon, Hout, <- app_assoc. auto.
    + destruct (is_request_exception ex); [|discriminate].
      intros Hs. apply IH in Hs. simpl in Hs. rewrite Ho, Hc, app_nil_r in Hs.
      destruct r as [u|].
      * destruct Hs as (before & after & -> & Hcon & Hout).
        exists (x :: before), after. rewrite Hcon, Hout, <- app_assoc. auto.
      * destruct Hs as [Hcon Hout]. rewrite Hcon, Hout, <- app_assoc. auto.
Qed.

Lemma cli_scan_returns (urls : list pystr) (s : Sys World) :
  only_request_exceptions requests_get -> exists r s', scan urls s = Ok r s'.
Proof.
  intros Hreq. revert s. induction urls as [|x urls IH]; intros s.
  - eexists _, _. reflexivity.
  - rewrite cli_scan_cons.
    destruct (page_contains_text _ _ _ _ _ _ s) as [e s1|ex s1] eqn:Hf.
    + destruct e; [eexists _, _; reflexivity | apply IH].
    + rewrite (page_contains_text_raises _ _ _ _ _ _ _ _ _ Hreq Hf). apply IH.
Qed.

Lemma misses_all_missed (urls : list pystr) : all_missed (misses urls).
Proof. apply Forall_map. apply Forall_forall. reflexivity. Qed.

Lemma cli_watch_ok (cycles : nat) (s s' : Sys World) (r : option pystr) :
  cli_watch World requests_get codec_decode time_time time_sleep args cycles s = Ok r s' ->
  exists l,
    all_missed l /\
    match r with
    | Some u =>
        In u (args_urls args) /\
        console s' = console s ++ l ++ [(u, true)] /\ outbox s' = outbox s ++ note u
    | None =>
        console s' = console s ++ l /\ outbox s' = outbox s /\
        length l = (cycles * length (args_urls args))%nat
    end.
Proof.
  revert s. induction cycles as [|cycles IH]; intros s.
  - intros [= <- <-]. exists []. rewrite app_nil_r. repeat split. constructor.
  - cbn [cli_watch]. unfold bind at 1, now_ at 1. unfold bind at 1.
    destruct (scan (args_urls args) s) as [found s1|] eqn:Hscan; [|discriminate].
    apply cli_scan_ok in Hscan. destruct found as [u|].
    + intros [= <- <-]. destruct Hscan as (before & after & Hurls & Hcon & Hout).
      exists (misses before). split; [apply misses_all_missed|].
      split; [rewrite Hurls; apply in_elt | auto].
    + destruct Hscan as [Hcon Hout].
      assert (Htail : forall s2,
                 console s2 = console s1 -> outbox s2 = outbox s1 ->
                 cli_watch World requests_get codec_decode time_time time_sleep args
                   cycles s2 = Ok r s' ->
                 exists l,
                   all_missed l /\
                   match r with
                   | Some u =>
                       In u (args_urls args) /\
                       console s' = console s ++ l ++ [(u, true)] /\
                       outbox s' = outbox s ++ note u
                   | None =>
                       console s' = console s ++ l /\ outbox s' = outbox s /\
                       length l = (S cycles * length (args_urls args))%nat
                   end).
      { intros s2 Hc2 Ho2 Hrest. apply IH in Hrest as (l & Hmiss & Hr).
        exists (misses (args_urls args) ++ l). split.
        - apply Forall_app. split; [apply misses_all_missed | exact Hmiss].
        - rewrite Hc2, Ho2, Hcon, Hout in Hr. destruct r as [u|].
          + destruct Hr as (Hin & Hc & Ho). rewrite Hc, <- !app_assoc. auto.
          + destruct Hr as (Hc & Ho & Hlen). rewrite Hc, <- !app_assoc.
            repeat split; [exact Ho|]. rewrite length_app, length_map, Hlen. lia. }
      unfold bind at 1, now_ at 1. unfold bind at 1.
      destruct (f_positive _).
      * apply Htail; reflexivity.
      * apply Htail; reflexivity.
Qed.

End CommandLineFacts.





(** ** The size utilities *)

Lemma Qle_bool_false (a b : Q) : Qle_bool a b = false -> (b < a)%Q.
Proof.
  intros H. apply Qnot_le_lt. intros Hle. apply Qle_bool_iff in Hle. congruence.
Qed.

(** X16: for a byte count from 0 to below 2^53, [format_size] stops at a
    unit from B to TB such that the number shown times 1024 to the power
    of the unit's rank is the byte count; below TB the number is under
    1024, and above B it is at least 1. *)
Theorem X16_format_size_scales_by_1024 (num_bytes : Z) :
  (0 <= num_bytes < 2 ^ 53)%Z ->
  let size := fst (FormatSize.scaled num_bytes) in
  let unit_index := snd (FormatSize.scaled num_bytes) in
  (unit_index <= 4)%nat /\
  (size * inject_Z (1024 ^ Z.of_nat unit_index) == inject_Z num_bytes)%Q /\
  ((unit_index < 4)%nat -> (size < 1024)%Q) /\
  ((0 < unit_index)%nat -> (1 <= size)%Q).
Proof.
  intros _. cbv zeta. unfold FormatSize.scaled. simpl length. cbn [Nat.sub FormatSize.scale_loop].
  generalize (inject_Z num_bytes). intros x.
  destruct (Qle_bool 1024 x) eqn:E1;
    [apply Qle_bool_iff in E1 | apply Qle_bool_false in E1].
  2: { cbn [fst snd]. change (inject_Z (1024 ^ Z.of_nat 0)) with 1%Q.
       repeat split; [lia | ring | intros _; exact E1 | lia]. }
  destruct (Qle_bool 1024 (x / 1024)) eqn:E2;
    [apply Qle_bool_iff in E2 | apply Qle_bool_false in E2].
  2: { cbn [fst snd]. change (inject_Z (1024 ^ Z.of_nat 1)) with 1024%Q.
       repeat split; [lia | field | intros _; exact E2 | intros _].
       apply Qle_shift_div_l; [reflexivity | exact E1]. }
  destruct (Qle_bool 1024 (x / 1024 / 1024)) eqn:E3;
    [apply Qle_bool_iff in E3 | apply Qle_bool_false in E3].
  2: { cbn [fst snd]. change (inject_Z (1024 ^ Z.of_nat 2)) with 1048576%Q.
       repeat split; [lia | field | intros _; exact E3 | intros _].
       apply Qle_shift_div_l; [reflexivity | exact E2]. }
  destruct (Qle_bool 1024 (x / 1024 / 1024 / 1024)) eqn:E4;
    [apply Qle_bool_iff in E4 | apply Qle_bool_false in E4].
  2: { cbn [fst snd]. change (inject_Z (1024 ^ Z.of_nat 3)) with 1073741824%Q.
       repeat split; [lia | field | intros _; exact E4 | intros _].
       apply Qle_shift_div_l; [reflexivity | exact E3]. }
  cbn [fst snd]. change (inject_Z (1024 ^ Z.of_nat 4)) with 1099511627776%Q.
  repeat split; [lia | field | lia | intros _].
  apply Qle_shift_div_l; [reflexivity|].
  eapply Qle_trans; [|exact E4]. discriminate.
Qed.

Lemma X16_format_size_scales_by_1024_witness :
  FormatSize.scaled 1536 = ((1536 # 1024)%Q, 1%nat) /\
  ((1536 # 1024) * inject_Z (1024 ^ 1) == inject_Z 1536)%Q.
Proof.
  split; [reflexivity|].
  exact (proj1 (proj2 (X16_format_size_scales_by_1024 1536 ltac:(lia)))).
Defined.

Lemma round_half_even_hundredths (n : Z) :
  FormatSize.round_half_even (inject_Z n * 100) = (n * 100)%Z.
Proof.
  unfold FormatSize.round_half_even.
  assert (Hfl : Qfloor (inject_Z n * 100) = (n * 100)%Z).
  { unfold Qfloor, Qmult, inject_Z. simpl. apply Z.div_1_r. }
  rewrite Hfl.
  assert (Hc : Qcompare (inject_Z n * 100 - inject_Z (n * 100)) (1 # 2) = Lt).
  { unfold Qcompare, Qminus, Qplus, Qopp, Qmult, inject_Z. cbn [Qnum Qden].
    apply Z.compare_lt_iff. cbn [Pos.mul]. lia. }
  rewrite Hc. reflexivity.
Qed.

(** X17: for a byte count below 1024 (and above -2^53), [format_size]
    applies no scaling: the text is the count itself with two zero
    decimals and the unit B, with a minus sign for a negative count. *)
Theorem X17_format_size_below_1024 (num_bytes : Z) :
  (- 2 ^ 53 < num_bytes < 1024)%Z ->
  FormatSize.format_size num_bytes
  = (if (num_bytes <? 0)%Z then lit "-" else [])
    ++ FormatSize.decimal (Z.to_N (Z.abs num_bytes)) ++ lit ".00 B".
Proof.
  intros [_ Hlt]. unfold FormatSize.format_size, FormatSize.scaled.
  simpl length. cbn [Nat.sub FormatSize.scale_loop].
  assert (E : Qle_bool 1024 (inject_Z num_bytes) = false).
  { destruct (Qle_bool 1024 (inject_Z num_bytes)) eqn:E; [|reflexivity].
    apply Qle_bool_iff in E. change 1024%Q with (inject_Z 1024) in E.
    rewrite <- Zle_Qle in E. lia. }
  rewrite E. unfold FormatSize.format_2f. rewrite round_half_even_hundredths.
  cbv zeta.
  assert (Ha : Z.to_N (Z.abs (num_bytes * 100)) = (Z.to_N (Z.abs num_bytes) * 100)%N) by lia.
  rewrite Ha, N.div_mul, N.Div0.mod_mul by discriminate.
  assert (Hs : (num_bytes * 100 <? 0)%Z = (num_bytes <? 0)%Z).
  { destruct (Z.ltb_spec num_bytes 0); [apply Z.ltb_lt | apply Z.ltb_ge]; lia. }
  rewrite Hs, <- !app_assoc. reflexivity.
Qed.

Lemma X17_format_size_below_1024_witness :
  FormatSize.format_size 1023 = lit "1023.00 B" /\
  FormatSize.format_size 0 = lit "0.00 B" /\
  FormatSize.format_size (-5) = lit "-5.00 B".
Proof.
  split; [|split].
  - rewrite (X17_format_size_below_1024 1023) by lia. reflexivity.
  - rewrite (X17_format_size_below_1024 0) by lia. reflexivity.
  - rewrite (X17_format_size_below_1024 (-5)) by lia. reflexivity.
Defined.

Section PageSizeFacts.
Context {F : Type} {PI : PyInt}.
Variable World : Type.
Variable requests_get : pystr -> F -> World -> (exception + Response) * World.
Variable requests_head : pystr -> F -> World -> (exception + HeadResponse) * World.

(** The system once the HEAD request has been made. *)
Local Abbreviation after_head url t s :=
  ({| world := snd (requests_head url t (world s));
      outbox := outbox s; console := console s |}).

Lemma size_from_head_eq (url : pystr) (t : F) (s : Sys World) :
  size_from_head World requests_head url t s =
  match fst (requests_head url t (world s)) with
  | inl e => if is_request_exception e then Ok None (after_head url t s)
             else Raise e (after_head url t s)
  | inr h =>
      if (400 <=? head_status_code h) && (head_status_code h <? 600)
      then Ok None (after_head url t s)
      else match head_content_length h with
           | Some cl =>
               if str_isdigit cl
               then match int_of_str cl with
                    | Some n => Ok (Some n) (after_head url t s)
                    | None => Raise OtherException (after_head url t s)
                    end
               else Ok None (after_head url t s)
           | None => Ok None (after_head url t s)
           end
  end.
Proof.
  unfold size_from_head, try_except_requests, bind, do_requests_head.
  destruct (requests_head url t (world s)) as [[e|h] w]; simpl; [reflexivity|].
  destruct ((400 <=? head_status_code h) && (head_status_code h <? 600)); [reflexivity|].
  destruct (head_content_length h) as [cl|]; [|reflexivity].
  destruct (str_isdigit cl); [|reflexivity].
  destruct (int_of_str cl); reflexivity.
Qed.

End PageSizeFacts.

(** X18: when the HEAD request succeeds and its Content-Length passes
    [isdigit] and reads as the integer n, [get_page_size_bytes] returns n
    and makes no GET request. *)
Theorem X18_page_size_from_content_length
    (F : Type) (PI : PyInt) (World : Type)
    (requests_get : pystr -> F -> World -> (exception + Response) * World)
    (requests_head : pystr -> F -> World -> (exception + HeadResponse) * World)
    (url : pystr) (t : F) (s : Sys World) (h : HeadResponse) (cl : pystr) (n : Z) :
  fst (requests_head url t (world s)) = inr h ->
  ~ (400 <= head_status_code h < 600) ->
  head_content_length h = Some cl ->
  str_isdigit cl = true ->
  int_of_str cl = Some n ->
  get_page_size_bytes World requests_get requests_head url t s
  = Ok n {| world := snd (requests_head url t (world s));
            outbox := outbox s; console := console s |}.
Proof.
  intros Hh Hst Hcl Hd Hn. unfold get_page_size_bytes, bind.
  rewrite size_from_head_eq, Hh.
  replace ((400 <=? head_status_code h) && (head_status_code h <? 600)) with false.
  - rewrite Hcl, Hd, Hn. reflexivity.
  - symmetry. apply andb_false_iff.
    destruct (N.leb_spec 400 (head_status_code h)); [|left; reflexivity].
    destruct (N.ltb_spec (head_status_code h) 600); [|right; reflexivity].
    exfalso. apply Hst. lia.
Qed.

Lemma X18_page_size_from_content_length_witness :
  let head := {| head_status_code := 200; head_content_length := Some (lit "0123") |} in
  let s := SimHead.start [Some head] [(1%Q, Sim.page "hello")] in
  exists s',
    get_page_size_bytes (PI := latin_digits) SimHead.World SimHead.requests_get
      SimHead.requests_head (lit "https://a.test") 15%Q s = Ok 123%Z s' /\
    Sim.script (SimHead.base (world s')) = [(1%Q, Sim.page "hello")].
Proof.
  intros head s. eexists. split.
  - apply (X18_page_size_from_content_length Q latin_digits SimHead.World
             SimHead.requests_get SimHead.requests_head (lit "https://a.test") 15%Q s
             head (lit "0123") 123%Z); try reflexivity.
    simpl. lia.
  - reflexivity.
Defined.

(** X19: when the HEAD request fails with a [requests] exception or an
    error status, or answers without a Content-Length, or with one that
    [isdigit] rejects, [get_page_size_bytes] makes a GET request and the
    outcome is that of the GET: the number of bytes of the body, or the
    exception of the GET, or HTTPError for an error status. *)
Theorem X19_page_size_falls_back_to_get
    (F : Type) (PI : PyInt) (World : Type)
    (requests_get : pystr -> F -> World -> (exception + Response) * World)
    (requests_head : pystr -> F -> World -> (exception + HeadResponse) * World)
    (url : pystr) (t : F) (s : Sys World) :
  (forall e, fst (requests_head url t (world s)) = inl e -> is_request_exception e = true) ->
  ~ head_settles requests_head url t s ->
  let s1 := {| world := snd (requests_head url t (world s));
               outbox := outbox s; console := console s |} in
  let s2 := {| world := snd (requests_get url t (world s1));
               outbox := outbox s; console := console s |} in
  get_page_size_bytes World requests_get requests_head url t s =
  match fst (requests_get url t (world s1)) with
  | inl e => Raise e s2
  | inr resp =>
      if (400 <=? status_code resp) && (status_code resp <? 600)
      then Raise HTTPError s2
      else Ok (Z.of_nat (length (content resp))) s2
  end.
Proof.
  intros Hreq Hno. cbv zeta. unfold get_page_size_bytes, bind at 1.
  rewrite size_from_head_eq.
  assert (Hget : forall s1 : Sys World,
             size_from_get World requests_get url t s1 =
             match fst (requests_get url t (world s1)) with
             | inl e => Raise e {| world := snd (requests_get url t (world s1));
                                   outbox := outbox s1; console := console s1 |}
             | inr resp =>
                 if (400 <=? status_code resp) && (status_code resp <? 600)
                 then Raise HTTPError {| world := snd (requests_get url t (world s1));
                                         outbox := outbox s1; console := console s1 |}
                 else Ok (Z.of_nat (length (content resp)))
                        {| world := snd (requests_get url t (world s1));
                           outbox := outbox s1; console := console s1 |}
             end).
  { intros s1. unfold size_from_get, bind, do_requests_get, raise_for_status.
    destruct (requests_get url t (world s1)) as [[e|resp] w]; simpl; [reflexivity|].
    destruct ((400 <=? status_code resp) && (status_code resp <? 600)); reflexivity. }
  destruct (fst (requests_head url t (world s))) as [e|h] eqn:Hh.
  - rewrite (Hreq e eq_refl). exact (Hget _).
  - destruct ((400 <=? head_status_code h) && (head_status_code h <? 600)) eqn:Hst;
      [exact (Hget _)|].
    destruct (head_content_length h) as [cl|] eqn:Hcl; [|exact (Hget _)].
    destruct (str_isdigit cl) eqn:Hd; [|exact (Hget _)].
    exfalso. apply Hno. exists h, cl. auto.
Qed.

Lemma X19_page_size_falls_back_to_get_witness :
  let head := {| head_status_code := 200; head_content_length := Some (lit "-12") |} in
  let s := SimHead.start [Some head] [(1%Q, Sim.page "hello")] in
  exists s',
    get_page_size_bytes (PI := latin_digits) SimHead.World SimHead.requests_get
      SimHead.requests_head (lit "https://a.test") 15%Q s = Ok 5%Z s'.
Proof.
  intros head s. eexists.
  rewrite (X19_page_size_falls_back_to_get Q latin_digits SimHead.World
             SimHead.requests_get SimHead.requests_head (lit "https://a.test") 15%Q s).
  - reflexivity.
  - intros e He. discriminate He.
  - intros (h & cl & Hh & _ & Hcl & Hd). injection Hh as <-. injection Hcl as <-.
    discriminate Hd.
Defined.

(** X20: when the HEAD request succeeds with a Content-Length that
    [isdigit] accepts but [int] cannot read (the superscript two, say),
    [get_page_size_bytes] raises the error of [int] and makes no GET
    request: the [except] clause covers [requests] exceptions only. *)
Theorem X20_page_size_unreadable_digits_raise
    (F : Type) (PI : PyInt) (World : Type)
    (requests_get : pystr -> F -> World -> (exception + Response) * World)
    (requests_head : pystr -> F -> World -> (exception + HeadResponse) * World)
    (url : pystr) (t : F) (s : Sys World) (h : HeadResponse) (cl : pystr) :
  fst (requests_head url t (world s)) = inr h ->
  ~ (400 <= head_status_code h < 600) ->
  head_content_length h = Some cl ->
  str_isdigit cl = true ->
  int_of_str cl = None ->
  get_page_size_bytes World requests_get requests_head url t s
  = Raise OtherException {| world := snd (requests_head url t (world s));
                            outbox := outbox s; console := console s |}.
Proof.
  intros Hh Hst Hcl Hd Hn. unfold get_page_size_bytes, bind.
  rewrite size_from_head_eq, Hh.
  replace ((400 <=? head_status_code h) && (head_status_code h <? 600)) with false.
  - rewrite Hcl, Hd, Hn. reflexivity.
  - symmetry. apply andb_false_iff.
    destruct (N.leb_spec 400 (head_status_code h)); [|left; reflexivity].
    destruct (N.ltb_spec (head_status_code h) 600); [|right; reflexivity].
    exfalso. apply Hst. lia.
Qed.

Lemma X20_page_size_unreadable_digits_raise_witness :
  let head := {| head_status_code := 200; head_content_length := Some [0xB2] |} in
  let s := SimHead.start [Some head] [(1%Q, Sim.page "hello")] in
  exists s',
    get_page_size_bytes (PI := latin_digits) SimHead.World SimHead.requests_get
      SimHead.requests_head (lit "https://a.test") 15%Q s = Raise OtherException s' /\
    Sim.script (SimHead.base (world s')) = [(1%Q, Sim.page "hello")].
Proof.
  intros head s. eexists. split.
  - apply (X20_page_size_unreadable_digits_raise Q latin_digits SimHead.World
             SimHead.requests_get SimHead.requests_head (lit "https://a.test") 15%Q s
             head [0xB2]); try reflexivity.
    simpl. lia.
  - reflexivity.
Defined.

(** ** What a start-watch command can store *)

Lemma last_in_or_default {A : Type} (l : list A) (d : A) :
  List.last l d = d \/ In (List.last l d) l.
Proof.
  destruct l as [|a l]; [left; reflexivity|]. right.
  revert a. induction l as [|b l IH]; intros a; [left; reflexivity|].
  change (List.last (a :: b :: l) d) with (List.last (b :: l) d).
  right. apply IH.
Qed.

Lemma valid_intervals_ge {F : Type} {PF : PyFloat F} (cmd_args : list pystr) :
  Forall (fun p => f_ge p (float_lit 1) = true) (valid_intervals cmd_args).
Proof.
  unfold valid_intervals. induction cmd_args as [|arg cmd_args IH]; [constructor|].
  cbn [omap list_omap]. destruct (is_url arg); [exact IH|].
  destruct (float_of_str arg) as [p|]; [|exact IH].
  destruct (f_ge p (float_lit 1)) eqn:E; [|exact IH].
  constructor; assumption.
Qed.

(** X21: the task a start-watch command stores has only tokens of the
    command with an http:// or https:// prefix as URLs, and its interval is
    the default interval or a number that is at least 1.0: no command sets
    a shorter interval. *)
Theorem X21_stored_interval_is_default_or_at_least_one
    (F : Type) (PF : PyFloat F) (args : Args F) (cmd_args : list pystr) :
  let urls := fst (scan_watch_args args cmd_args) in
  let interval := snd (scan_watch_args args cmd_args) in
  Forall (fun url => In url cmd_args /\ is_url url = true) urls /\
  (interval = args_interval args \/ f_ge interval (float_lit 1) = true).
Proof.
  cbv zeta. rewrite scan_watch_args_eq. simpl. split.
  - apply Forall_forall. intros url Hin. apply list_elem_of_In in Hin.
    apply filter_In in Hin. exact Hin.
  - destruct (last_in_or_default (valid_intervals cmd_args) (args_interval args)) as [H|H];
      [left; exact H|].
    right. pose proof (valid_intervals_ge cmd_args) as Hall.
    rewrite Forall_forall in Hall. apply Hall. apply list_elem_of_In. exact H.
Qed.

(** ** The encoding, continued *)

(** X22: the encoding a page is decoded with is never empty and never
    ISO-8859-1 in any letter case: it is UTF-8, or a name whose lower-case
    form differs from iso-8859-1. *)
Theorem X22_never_decoded_as_latin1 (U : Unicodedata) (resp : Response) :
  truthy (select_encoding resp) = true /\
  (select_encoding resp = lit "utf-8" \/
   str_lower (select_encoding resp) <> lit "iso-8859-1").
Proof.
  unfold select_encoding.
  destruct (if negb (truthy_opt (encoding resp)) then apparent_encoding resp
            else encoding resp) as [e|]; [|split; [reflexivity | left; reflexivity]].
  destruct (truthy e) eqn:Ht; simpl; [|split; [reflexivity | left; reflexivity]].
  destruct (str_eqb (str_lower e) (lit "iso-8859-1")) eqn:E;
    [split; [reflexivity | left; reflexivity]|].
  split; [exact Ht|]. right. intros H. apply str_eqb_eq in H. congruence.
Qed.
